(** * Provider-side settlement of hermes promises (package pingpong)

    A shallow embedding of [hermesPromiseSettler] and of the earning
    calculations of [settlementState], together with the properties the
    specification states about them.

    Conventions of the embedding:
    - a Go [uint64] is a [Z] in [0, 2^64); additions wrap, [safeSub] saturates;
    - a [*big.Int] is an [option Z] ([None] is the nil pointer);
    - a [float64] is a [spec_float] of the binary64 format, with the
      operations of [SpecFloat] at precision 53 and maximal exponent 1024;
    - [map[identity.Identity]settlementState] is a [gmap string settlementState];
      a lookup of a missing key yields the zero value, as in Go;
    - the collaborators (chain, transactor, storages, registry) are a record
      of response functions, and every call made to them is appended to the
      call log of the settler, in the order in which the code makes it;
    - the goroutines of [settle] are processes with a program counter; one
      step of a process is one critical section or one collaborator call. *)

From Stdlib Require Import ZArith List Bool String Ascii.
From Stdlib Require Import Strings.Byte.
From Stdlib Require Import Floats.SpecFloat.
From stdpp Require Import gmap strings list.

Local Open Scope Z_scope.

(* ===================================================================== *)
(** ** Machine numbers *)
(* ===================================================================== *)

Module U64.

Definition modulus : Z := 2 ^ 64.

(** Reduction into the range of [uint64]. *)
Definition wrap (z : Z) : Z := z mod modulus.

(** [a + b] on [uint64]. *)
Definition add (a b : Z) : Z := wrap (a + b).

(** [Uint64] of [big.Int]: the low 64 bits of the magnitude. *)
Definition of_big (x : Z) : Z := wrap (Z.abs x).

End U64.

Module F64.

Definition prec : Z := 53.
Definition emax : Z := 1024.

Definition float64 : Type := spec_float.

(** [float64(x)] for an unsigned integer [x]: round to nearest, ties to even. *)
Definition of_uint64 (x : Z) : float64 := binary_normalize prec emax x 0 false.

Definition mul (x y : float64) : float64 := SFmul prec emax x y.

(** [x < y] on [float64]; false as soon as one side is NaN. *)
Definition ltb (x y : float64) : bool := SFltb x y.

(** [x <= y] on [float64]; false as soon as one side is NaN. *)
Definition leb (x y : float64) : bool := SFleb x y.

(** The literal [0.5]. *)
Definition half : float64 := S754_finite false 4503599627370496 (-53).

End F64.

(* ===================================================================== *)
(** ** Data model *)
(* ===================================================================== *)

(** [identity.Identity]: the address string of the account. *)
Definition Identity : Type := string.

(** [common.Address]: twenty bytes, read as a number. [Hex] and
    [ToCommonAddress] only change the representation, so the collaborators
    below receive the value itself. *)
Definition Address : Type := N.

Definition zeroAddress : Address := 0%N.

(** Modelled from the spec: the declaration of [crypto.Promise] is not part
    of the sources; the fields are those of section 3, [Amount] being the
    cumulative [uint64] amount and [R] the preimage. *)
Record Promise : Type := mkPromise {
  Amount : Z;
  R : list byte;
  Signature : list byte;
  Hermes : Address;
  ChannelID : list byte
}.

Definition zeroPromise : Promise :=
  {| Amount := 0; R := []; Signature := []; Hermes := zeroAddress; ChannelID := [] |}.

(** Modelled from the spec: [client.ProviderChannel] is declared outside the
    sources; [Balance] and [Settled] are [*big.Int] (the code tests them
    against nil), [Beneficiary] is an address. *)
Record ProviderChannel : Type := mkProviderChannel {
  Balance : option Z;
  Settled : option Z;
  Beneficiary : Address
}.

Definition zeroChannel : ProviderChannel :=
  {| Balance := None; Settled := None; Beneficiary := zeroAddress |}.

(** [settlementState]: earning calculations model. *)
Record settlementState : Type := mkState {
  channel : ProviderChannel;
  lastPromise : Promise;
  settleInProgress : bool;
  registered : bool
}.

(** The zero value, which a Go map lookup returns for a missing key. *)
Definition zeroState : settlementState :=
  {| channel := zeroChannel; lastPromise := zeroPromise;
     settleInProgress := false; registered := false |}.

(** [event.Earnings], as the literal in [settlementState.Earnings] fills it. *)
Record Earnings : Type := mkEarnings {
  LifetimeBalance : Z;
  UnsettledBalance : Z
}.

Definition zeroEarnings : Earnings :=
  {| LifetimeBalance := 0; UnsettledBalance := 0 |}.

(* ===================================================================== *)
(** ** Earning calculations and the settlement policy *)
(* ===================================================================== *)

(** Modelled from the spec: [safeSub] is defined outside the sources; section 3
    says that all subtractions saturate at zero. *)
Definition safeSub (a b : Z) : Z := if a <? b then 0 else a - b.

(** [settled := uint64(0); if ss.channel.Settled != nil { settled = ...Uint64() }] *)
Definition settledU64 (ss : settlementState) : Z :=
  match Settled (channel ss) with
  | Some x => U64.of_big x
  | None => 0
  end.

Definition balanceU64 (ss : settlementState) : Z :=
  match Balance (channel ss) with
  | Some x => U64.of_big x
  | None => 0
  end.

Definition lifetimeBalance (ss : settlementState) : Z :=
  Amount (lastPromise ss).

Definition unsettledBalance (ss : settlementState) : Z :=
  safeSub (Amount (lastPromise ss)) (settledU64 ss).

Definition availableBalance (ss : settlementState) : Z :=
  U64.add (balanceU64 ss) (settledU64 ss).

Definition balance (ss : settlementState) : Z :=
  safeSub (availableBalance ss) (Amount (lastPromise ss)).

Definition needsSettling (ss : settlementState) (threshold : F64.float64) : bool :=
  if negb (registered ss) then false
  else if settleInProgress ss then false
  else
    let calculatedThreshold := F64.mul threshold (F64.of_uint64 (availableBalance ss)) in
    let possibleEarnings := F64.of_uint64 (unsettledBalance ss) in
    if F64.ltb possibleEarnings calculatedThreshold then false
    else if F64.ltb (F64.of_uint64 (balance ss)) calculatedThreshold then true
    else false.

Definition stateEarnings (ss : settlementState) : Earnings :=
  {| LifetimeBalance := lifetimeBalance ss;
     UnsettledBalance := unsettledBalance ss |}.

(** A registered state with the given chain view and promise amount. *)
Definition stateOf (bal settled amount : Z) (inProgress reg : bool) : settlementState :=
  {| channel := {| Balance := Some bal; Settled := Some settled; Beneficiary := zeroAddress |};
     lastPromise := {| Amount := amount; R := []; Signature := []; Hermes := zeroAddress; ChannelID := [] |};
     settleInProgress := inProgress;
     registered := reg |}.


(* ===================================================================== *)
(** ** Errors, events and collaborators *)
(* ===================================================================== *)

Inductive error : Type :=
  | ErrNotFound                          (* the promise storage has no entry *)
  | ErrNothingToSettle
  | ErrSettleTimeout
  | ErrAlreadyInProgress                 (* "provider already has settlement in progress" *)
  | ErrHexLength                         (* encoding/hex: odd length *)
  | ErrHexInvalidByte (c : ascii)        (* encoding/hex: not a hexadecimal digit *)
  | ErrExternal (msg : string)           (* an error of a collaborator *)
  | ErrWrap (e : error) (msg : string).  (* errors.Wrap *)

(** [err == ErrNotFound], a comparison with the sentinel itself. *)
Definition isErrNotFound (e : error) : bool :=
  match e with
  | ErrNotFound => true
  | _ => false
  end.

(** [registry.RegistrationStatus], as section 6 enumerates it. *)
Inductive RegistrationStatus : Type :=
  | Unregistered
  | InProgress
  | Registered
  | RegistrationError.

Definition isRegistered (s : RegistrationStatus) : bool :=
  match s with
  | Registered => true
  | _ => false
  end.

(** Modelled from the spec: [HermesPromise] of the promise storage is declared
    outside the sources; it carries the promise and [R] hex-encoded. *)
Record HermesPromise : Type := mkHermesPromise {
  hpPromise : Promise;
  hpR : string
}.

Record receivedPromise : Type := mkReceived {
  provider : Identity;
  promise : Promise
}.

(** The settled event of the hermes contract: [Raw.TxHash], [Amount] and
    [TotalSettled], the last two being [*big.Int]. *)
Record PromiseSettled : Type := mkSettled {
  RawTxHash : N;
  SettledAmount : option Z;
  SettledTotal : option Z
}.

(** Modelled from the spec: [SettlementHistoryEntry] is declared outside the
    sources; the fields are those of section 3. [settle] assigns
    [*beneficiary] to the field, so it holds an address by value and an
    absent beneficiary is the zero address. *)
Record SettlementHistoryEntry : Type := mkEntry {
  TxHash : N;
  EntryPromise : Promise;
  EntryBeneficiary : Address;
  EntryAmount : option Z;
  TotalSettled : option Z
}.

Record AppEventEarningsChanged : Type := mkChanged {
  EvIdentity : Identity;
  Previous : Earnings;
  Current : Earnings
}.

Record AppEventHermesPromise : Type := mkAppPromise {
  EvPromise : Promise;
  HermesID : Address;
  ProviderID : Identity
}.

Record HermesPromiseSettlerConfig : Type := mkConfig {
  HermesAddress : Address;
  Threshold : F64.float64;
  MaxWaitForSettlement : Z
}.

(** What the collaborators answer. A Go call returning [(v, err)] is a pair,
    a call returning [error] alone an [option error]. [PromiseGet] is [Get]
    of the promise storage, [Store] the one of the history storage, and
    [SettleWithBeneficiary_tx] the method of the transactor, which shares
    its name with the operation of the settler. *)
Record Collaborators : Type := mkCollaborators {
  GetRegistrationStatus : Identity -> RegistrationStatus * option error;
  GetProviderChannel : Address -> Identity -> bool -> ProviderChannel * option error;
  PromiseGet : Identity -> Address -> HermesPromise * option error;
  SubscribeToPromiseSettledEvent : Identity -> Address -> option error;
  SettleAndRebalance : Address -> Identity -> Promise -> option error;
  SettleWithBeneficiary_tx : Identity -> Address -> Address -> Promise -> option error;
  Store : Identity -> Address -> SettlementHistoryEntry -> option error;
  Accounts : list Identity
}.

(** The calls the settler makes, in the order of the log. [CPublish] is the
    start of the goroutine that publishes an earnings change. *)
Inductive call : Type :=
  | CGetRegistrationStatus (id : Identity)
  | CGetProviderChannel (hermes : Address) (id : Identity) (pending : bool)
  | CPromiseGet (id : Identity) (hermes : Address)
  | CSubscribe (id : Identity) (hermes : Address)
  | CCancel (id : Identity) (hermes : Address)
  | CSettleAndRebalance (hermes : Address) (id : Identity) (p : Promise)
  | CSettleWithBeneficiary (id : Identity) (beneficiary hermes : Address) (p : Promise)
  | CStore (id : Identity) (hermes : Address) (she : SettlementHistoryEntry)
  | CPublish (ev : AppEventEarningsChanged).

Definition isPublish (c : call) : bool :=
  match c with CPublish _ => true | _ => false end.

Definition isTransactorCall (c : call) : bool :=
  match c with
  | CSettleAndRebalance _ _ _ | CSettleWithBeneficiary _ _ _ _ => true
  | _ => false
  end.

Definition isStore (c : call) : bool :=
  match c with CStore _ _ _ => true | _ => false end.

(* ===================================================================== *)
(** ** encoding/hex *)
(* ===================================================================== *)

Definition fromHexChar (c : ascii) : option N :=
  let n := N_of_ascii c in
  if ((48 <=? n) && (n <=? 57))%N then Some (n - 48)%N
  else if ((97 <=? n) && (n <=? 102))%N then Some (n - 87)%N
  else if ((65 <=? n) && (n <=? 70))%N then Some (n - 55)%N
  else None.

Definition byteOfN (n : N) : byte :=
  match Byte.of_N n with
  | Some b => b
  | None => x00
  end.

(** [hex.DecodeString]: pairs of digits from the left; a digit that is not
    hexadecimal is reported before an odd length is. *)
Fixpoint hexDecodeString (s : string) : list byte + error :=
  match s with
  | EmptyString => inl []
  | String p EmptyString =>
      match fromHexChar p with
      | None => inr (ErrHexInvalidByte p)
      | Some _ => inr ErrHexLength
      end
  | String p (String q rest) =>
      match fromHexChar p, fromHexChar q with
      | None, _ => inr (ErrHexInvalidByte p)
      | Some _, None => inr (ErrHexInvalidByte q)
      | Some a, Some b =>
          match hexDecodeString rest with
          | inl bs => inl (byteOfN (a * 16 + b) :: bs)
          | inr e => inr e
          end
      end
  end.

(* ===================================================================== *)
(** ** The settler *)
(* ===================================================================== *)

(** The mutable part of [hermesPromiseSettler] and the log of its calls. *)
Record settler : Type := mkSettler {
  currentState : gmap string settlementState;
  settleQueue : list receivedPromise;
  stopClosed : bool;
  dispatchers : nat;
  calls : list call
}.

Definition NewHermesPromiseSettler : settler :=
  {| currentState := ∅; settleQueue := []; stopClosed := false;
     dispatchers := 0; calls := [] |}.

Definition logCall (c : call) (st : settler) : settler :=
  {| currentState := currentState st; settleQueue := settleQueue st;
     stopClosed := stopClosed st; dispatchers := dispatchers st;
     calls := calls st ++ [c] |}.

Definition setState (id : Identity) (s : settlementState) (st : settler) : settler :=
  {| currentState := <[id := s]> (currentState st); settleQueue := settleQueue st;
     stopClosed := stopClosed st; dispatchers := dispatchers st;
     calls := calls st |}.

(** [aps.settleQueue <- p]. The queue holds five promises; a send on a full
    queue waits until the dispatcher has taken one, and then goes through. *)
Definition enqueue (p : receivedPromise) (st : settler) : settler :=
  {| currentState := currentState st; settleQueue := settleQueue st ++ [p];
     stopClosed := stopClosed st; dispatchers := dispatchers st;
     calls := calls st |}.

(** [aps.currentState[id]] read as a value: the zero state for a missing key. *)
Definition lookupState (st : settler) (id : Identity) : settlementState :=
  default zeroState (currentState st !! id).

Definition withPromise (s : settlementState) (p : Promise) : settlementState :=
  {| channel := channel s; lastPromise := p;
     settleInProgress := settleInProgress s; registered := registered s |}.

Definition withSettling (s : settlementState) (b : bool) : settlementState :=
  {| channel := channel s; lastPromise := lastPromise s;
     settleInProgress := b; registered := registered s |}.

Definition withR (p : Promise) (r : list byte) : Promise :=
  {| Amount := Amount p; R := r; Signature := Signature p;
     Hermes := Hermes p; ChannelID := ChannelID p |}.

Definition changeEvent (id : Identity) (before after : settlementState) : call :=
  CPublish {| EvIdentity := id; Previous := stateEarnings before;
              Current := stateEarnings after |}.

Section Settler.

Variable cfg : HermesPromiseSettlerConfig.

(** The tail of [resyncState]: compose the new state, start the publication
    of the change against the entry it replaces, overwrite the entry. *)
Definition resyncStore (id : Identity) (ch : ProviderChannel)
    (hermesPromise : HermesPromise) (st : settler) : option error * settler :=
  let s := {| channel := ch; lastPromise := hpPromise hermesPromise;
              settleInProgress := false; registered := true |} in
  (None, setState id s (logCall (changeEvent id (lookupState st id) s) st)).

Definition resyncState (env : Collaborators) (id : Identity) (st : settler)
  : option error * settler :=
  let st1 := logCall (CGetProviderChannel (HermesAddress cfg) id true) st in
  match GetProviderChannel env (HermesAddress cfg) id true with
  | (_, Some err) => (Some (ErrWrap err "could not get provider channel"), st1)
  | (ch, None) =>
      let st2 := logCall (CPromiseGet id (HermesAddress cfg)) st1 in
      let '(hermesPromise, err) := PromiseGet env id (HermesAddress cfg) in
      match err with
      | Some e =>
          if negb (isErrNotFound e)
          then (Some (ErrWrap e "could not get hermes promise"), st2)
          else resyncStore id ch hermesPromise st2
      | None => resyncStore id ch hermesPromise st2
      end
  end.

Definition loadInitialState (env : Collaborators) (addr : Identity) (st : settler)
  : option error * settler :=
  match currentState st !! addr with
  | Some _ => (None, st)
  | None =>
      let st1 := logCall (CGetRegistrationStatus addr) st in
      match GetRegistrationStatus env addr with
      | (_, Some err) => (Some (ErrWrap err "could not check registration status"), st1)
      | (status, None) =>
          if isRegistered status then resyncState env addr st1
          else (None, st1)
      end
  end.

Definition initiateSettling (env : Collaborators) (providerID : Identity)
    (hermesID : Address) (st : settler) : settler :=
  let st1 := logCall (CPromiseGet providerID hermesID) st in
  match PromiseGet env providerID hermesID with
  | (_, Some _) => st1
  | (hp, None) =>
      match hexDecodeString (hpR hp) with
      | inr _ => st1
      | inl hexR =>
          enqueue {| provider := providerID; promise := withR (hpPromise hp) hexR |} st1
      end
  end.

Definition handleHermesPromiseReceived (env : Collaborators)
    (apep : AppEventHermesPromise) (st : settler) : settler :=
  let id := ProviderID apep in
  match currentState st !! id with
  | None => st
  | Some s0 =>
      if negb (registered s0) then st
      else
        let s := withPromise s0 (EvPromise apep) in
        let st1 := logCall (changeEvent id (lookupState st id) s) st in
        let st2 := setState id s st1 in
        if needsSettling s (Threshold cfg)
        then initiateSettling env id (HermesID apep) st2
        else st2
  end.

Definition handleRegistrationEvent (env : Collaborators) (id : Identity)
    (status : RegistrationStatus) (st : settler) : settler :=
  if isRegistered status then snd (resyncState env id st) else st.

(** [handleServiceEvent]; [running] says whether the status is [Running]. *)
Definition handleServiceEvent (env : Collaborators) (providerID : Identity)
    (running : bool) (st : settler) : settler :=
  if running then snd (loadInitialState env providerID st) else st.

Definition GetEarnings (id : Identity) (st : settler) : Earnings * settler :=
  (stateEarnings (lookupState st id), st).

Definition isSettling (st : settler) (id : Identity) : bool :=
  match currentState st !! id with
  | None => false
  | Some v => settleInProgress v
  end.

Definition setSettling (id : Identity) (settling : bool) (st : settler) : settler :=
  setState id (withSettling (lookupState st id) settling) st.

End Settler.

(* ===================================================================== *)
(** ** [settle] as a process *)
(* ===================================================================== *)

(** Where the goroutine that called [settle] stands. *)
Inductive callerPc : Type :=
  | AtCheck                      (* before [isSettling] *)
  | AtMark                       (* [isSettling] was false; before [setSettling(true)] *)
  | AtSubscribe                  (* marked; before the subscription *)
  | AtSubmit                     (* waiter started; before [settleFunc()] *)
  | AtAwait                      (* blocked in [<-errCh] *)
  | Returned (e : option error).

(** Where the waiter goroutine of [settle] stands. *)
Inductive waiterPc : Type :=
  | NotSpawned
  | Selecting                    (* blocked in the [select] *)
  | Sending                      (* timed out; blocked in [errCh <- ErrSettleTimeout] *)
  | Closing                      (* deferred [close(errCh)] is next *)
  | Unmarking                    (* deferred [setSettling(false)] and [cancel()] are next *)
  | Finished.

(** Which case the [select] of the waiter takes. [WSink None] is a closed
    sink or a nil event. *)
Inductive waitOutcome : Type :=
  | WStop
  | WSink (info : option PromiseSettled)
  | WTimeout.

Record settleProc : Type := mkProc {
  rp : receivedPromise;
  beneficiary : option Address;
  caller : callerPc;
  waiter : waiterPc;
  errChClosed : bool
}.

Definition setCaller (p : settleProc) (c : callerPc) : settleProc :=
  {| rp := rp p; beneficiary := beneficiary p; caller := c;
     waiter := waiter p; errChClosed := errChClosed p |}.

Definition setWaiter (p : settleProc) (w : waiterPc) : settleProc :=
  {| rp := rp p; beneficiary := beneficiary p; caller := caller p;
     waiter := w; errChClosed := errChClosed p |}.

Definition closeErrCh (p : settleProc) : settleProc :=
  {| rp := rp p; beneficiary := beneficiary p; caller := caller p;
     waiter := waiter p; errChClosed := true |}.

(** A call of [settle] that has not started yet. *)
Definition enterSettle (r : receivedPromise) (b : option Address) : settleProc :=
  {| rp := r; beneficiary := b; caller := AtCheck; waiter := NotSpawned;
     errChClosed := false |}.

(** A call that returned before it reached [settle]. *)
Definition returnedEarly (r : receivedPromise) (b : option Address) (e : error) : settleProc :=
  {| rp := r; beneficiary := b; caller := Returned (Some e); waiter := NotSpawned;
     errChClosed := false |}.

(** The entry the waiter stores for a settled event. *)
Definition historyEntry (p : settleProc) (info : PromiseSettled) : SettlementHistoryEntry :=
  {| TxHash := RawTxHash info;
     EntryPromise := promise (rp p);
     EntryBeneficiary := match beneficiary p with
                         | Some b => b
                         | None => zeroAddress
                         end;
     EntryAmount := SettledAmount info;
     TotalSettled := SettledTotal info |}.

Inductive action : Type :=
  | ACaller                      (* the calling goroutine makes its next step *)
  | AWaiter (o : waitOutcome).   (* the waiter makes its next step *)

Section Settle.

Variable cfg : HermesPromiseSettlerConfig.

(** The first part of [ForceSettle] and [SettleWithBeneficiary]: load the
    promise, decode [R], enter [settle]. *)
Definition loadAndEnter (env : Collaborators) (providerID : Identity)
    (b : option Address) (hermesID : Address) (st : settler) : settleProc * settler :=
  let st1 := logCall (CPromiseGet providerID hermesID) st in
  let '(hp, err) := PromiseGet env providerID hermesID in
  let r0 := {| provider := providerID; promise := hpPromise hp |} in
  match err with
  | Some e =>
      if isErrNotFound e then (returnedEarly r0 b ErrNothingToSettle, st1)
      else (returnedEarly r0 b (ErrWrap e "could not get promise from storage"), st1)
  | None =>
      match hexDecodeString (hpR hp) with
      | inr e => (returnedEarly r0 b (ErrWrap e "could not decode R"), st1)
      | inl hexR =>
          (enterSettle {| provider := providerID; promise := withR (hpPromise hp) hexR |} b, st1)
      end
  end.

Definition ForceSettle (env : Collaborators) (providerID : Identity)
    (hermesID : Address) (st : settler) : settleProc * settler :=
  loadAndEnter env providerID None hermesID st.

Definition SettleWithBeneficiary (env : Collaborators) (providerID : Identity)
    (b hermesID : Address) (st : settler) : settleProc * settler :=
  loadAndEnter env providerID (Some b) hermesID st.

(** [settleFunc]: which transactor call submits the promise. *)
Definition settleFuncCall (p : settleProc) : call :=
  match beneficiary p with
  | None => CSettleAndRebalance (HermesAddress cfg) (provider (rp p)) (promise (rp p))
  | Some b => CSettleWithBeneficiary (provider (rp p)) b (HermesAddress cfg) (promise (rp p))
  end.

Definition settleFunc (env : Collaborators) (p : settleProc) : option error :=
  match beneficiary p with
  | None => SettleAndRebalance env (HermesAddress cfg) (provider (rp p)) (promise (rp p))
  | Some b => SettleWithBeneficiary_tx env (provider (rp p)) b (HermesAddress cfg) (promise (rp p))
  end.

(** One step of the goroutine that called [settle]; [None] when it is
    blocked or has returned. *)
Definition callerStep (env : Collaborators) (p : settleProc) (st : settler)
  : option (settleProc * settler) :=
  let id := provider (rp p) in
  match caller p with
  | AtCheck =>
      if isSettling st id
      then Some (setCaller p (Returned (Some ErrAlreadyInProgress)), st)
      else Some (setCaller p AtMark, st)
  | AtMark => Some (setCaller p AtSubscribe, setSettling id true st)
  | AtSubscribe =>
      let st1 := logCall (CSubscribe id (HermesAddress cfg)) st in
      match SubscribeToPromiseSettledEvent env id (HermesAddress cfg) with
      | Some err => Some (setCaller p (Returned (Some err)), setSettling id false st1)
      | None => Some (setWaiter (setCaller p AtSubmit) Selecting, st1)
      end
  | AtSubmit =>
      let st1 := logCall (settleFuncCall p) st in
      match settleFunc env p with
      | Some err =>
          Some (setCaller p (Returned (Some err)), logCall (CCancel id (HermesAddress cfg)) st1)
      | None => Some (setCaller p AtAwait, st1)
      end
  | AtAwait =>
      match waiter p with
      | Sending => Some (setWaiter (setCaller p (Returned (Some ErrSettleTimeout))) Closing, st)
      | _ => if errChClosed p then Some (setCaller p (Returned None), st) else None
      end
  | Returned _ => None
  end.

(** One step of the waiter; [o] is the case its [select] takes, and is not
    looked at once the [select] is over. *)
Definition waiterStep (env : Collaborators) (o : waitOutcome) (p : settleProc)
    (st : settler) : option (settleProc * settler) :=
  let id := provider (rp p) in
  match waiter p with
  | Selecting =>
      match o with
      | WStop => if stopClosed st then Some (setWaiter p Closing, st) else None
      | WSink None => Some (setWaiter p Closing, st)
      | WSink (Some info) =>
          let she := historyEntry p info in
          let st1 := logCall (CStore id (HermesAddress cfg) she) st in
          let st2 := match Store env id (HermesAddress cfg) she with
                     | Some _ => st1      (* logged only *)
                     | None => st1
                     end in
          Some (setWaiter p Closing, snd (resyncState cfg env id st2))
      | WTimeout => Some (setWaiter p Sending, st)
      end
  | Closing => Some (closeErrCh (setWaiter p Unmarking), st)
  | Unmarking =>
      Some (setWaiter p Finished,
            logCall (CCancel id (HermesAddress cfg)) (setSettling id false st))
  | NotSpawned | Sending | Finished => None
  end.

Definition procStep (env : Collaborators) (a : action) (ps : settleProc * settler)
  : option (settleProc * settler) :=
  match a with
  | ACaller => callerStep env (fst ps) (snd ps)
  | AWaiter o => waiterStep env o (fst ps) (snd ps)
  end.

(** A schedule of one call of [settle], with nothing else in between. *)
Fixpoint procRun (env : Collaborators) (acts : list action) (ps : settleProc * settler)
  : option (settleProc * settler) :=
  match acts with
  | [] => Some ps
  | a :: rest =>
      match procStep env a ps with
      | Some ps' => procRun env rest ps'
      | None => None
      end
  end.

End Settle.

(* ===================================================================== *)
(** ** The settler with its goroutines *)
(* ===================================================================== *)

Record system : Type := mkSystem {
  core : settler;
  procs : list settleProc
}.

Definition initialSystem : system :=
  {| core := NewHermesPromiseSettler; procs := [] |}.

(** What can happen next: an event of the bus is handled, a public operation
    is called, or a goroutine of [settle] makes a step. *)
Inductive label : Type :=
  | LNodeStarted                                   (* starts the dispatcher *)
  | LNodeStopped
  | LNodeLoad (addr : Identity)                    (* a load started by [handleNodeStart] *)
  | LDispatch                                      (* the dispatcher starts [settle] for the head of the queue *)
  | LDispatcherStop
  | LRegistration (id : Identity) (status : RegistrationStatus)
  | LService (providerID : Identity) (running : bool)
  | LPromise (apep : AppEventHermesPromise)
  | LForceSettle (providerID : Identity) (hermesID : Address)
  | LSettleWithBeneficiary (providerID : Identity) (b hermesID : Address)
  | LGetEarnings (id : Identity)
  | LProc (i : nat) (a : action).

Definition withCore (sys : system) (st : settler) : system :=
  {| core := st; procs := procs sys |}.

Definition spawn (sys : system) (ps : settleProc * settler) : system :=
  {| core := snd ps; procs := procs sys ++ [fst ps] |}.

Definition startDispatcher (st : settler) : settler :=
  {| currentState := currentState st; settleQueue := settleQueue st;
     stopClosed := stopClosed st; dispatchers := S (dispatchers st);
     calls := calls st |}.

Definition stopDispatcher (st : settler) : settler :=
  {| currentState := currentState st; settleQueue := settleQueue st;
     stopClosed := stopClosed st; dispatchers := pred (dispatchers st);
     calls := calls st |}.

Definition closeStop (st : settler) : settler :=
  {| currentState := currentState st; settleQueue := settleQueue st;
     stopClosed := true; dispatchers := dispatchers st;
     calls := calls st |}.

Definition dequeue (st : settler) : option (receivedPromise * settler) :=
  match settleQueue st with
  | [] => None
  | r :: q =>
      Some (r, {| currentState := currentState st; settleQueue := q;
                  stopClosed := stopClosed st; dispatchers := dispatchers st;
                  calls := calls st |})
  end.

Section System.

Variable cfg : HermesPromiseSettlerConfig.

Definition step (env : Collaborators) (l : label) (sys : system) : option system :=
  let st := core sys in
  match l with
  | LNodeStarted => Some (withCore sys (startDispatcher st))
  | LNodeStopped => Some (withCore sys (closeStop st))
  | LNodeLoad addr =>
      if bool_decide (addr ∈ Accounts env)
      then Some (withCore sys (snd (loadInitialState cfg env addr st)))
      else None
  | LDispatch =>
      match dispatchers st, dequeue st with
      | S _, Some (r, st') => Some (spawn sys (enterSettle r None, st'))
      | _, _ => None
      end
  | LDispatcherStop =>
      match dispatchers st with
      | S _ => if stopClosed st then Some (withCore sys (stopDispatcher st)) else None
      | O => None
      end
  | LRegistration id status => Some (withCore sys (handleRegistrationEvent cfg env id status st))
  | LService id running => Some (withCore sys (handleServiceEvent cfg env id running st))
  | LPromise apep => Some (withCore sys (handleHermesPromiseReceived cfg env apep st))
  | LForceSettle id hermesID => Some (spawn sys (ForceSettle env id hermesID st))
  | LSettleWithBeneficiary id b hermesID =>
      Some (spawn sys (SettleWithBeneficiary env id b hermesID st))
  | LGetEarnings id => Some (withCore sys (snd (GetEarnings id st)))
  | LProc i a =>
      match procs sys !! i with
      | None => None
      | Some p =>
          match procStep cfg env a (p, st) with
          | None => None
          | Some (p', st') => Some {| core := st'; procs := <[i := p']> (procs sys) |}
          end
      end
  end.

Fixpoint run (env : Collaborators) (ls : list label) (sys : system) : option system :=
  match ls with
  | [] => Some sys
  | l :: rest =>
      match step env l sys with
      | Some sys' => run env rest sys'
      | None => None
      end
  end.

End System.

(** A settlement is outstanding while its waiter waits for the chain. *)
Definition outstanding (id : Identity) (p : settleProc) : bool :=
  bool_decide (provider (rp p) = id) &&
  match waiter p with
  | Selecting | Sending => true
  | _ => false
  end.

Definition outstandingCount (id : Identity) (sys : system) : nat :=
  length (filter (fun p => outstanding id p = true) (procs sys)).

(** The promise events of a provider, handled one after the other; the
    collaborators may answer differently at every event. *)
Definition handlePromises (cfg : HermesPromiseSettlerConfig)
    (evs : list (Collaborators * AppEventHermesPromise)) (st : settler) : settler :=
  fold_left (fun s ev => handleHermesPromiseReceived cfg (fst ev) (snd ev) s) evs st.

(** The promise the last event of a list carries, [p0] for no event. *)
Definition lastReceived (p0 : Promise)
    (evs : list (Collaborators * AppEventHermesPromise)) : Promise :=
  fold_left (fun _ ev => EvPromise (snd ev)) evs p0.

(** The largest amount among [a0] and the amounts of the events. *)
Definition maxObserved (a0 : Z)
    (evs : list (Collaborators * AppEventHermesPromise)) : Z :=
  fold_left (fun a ev => Z.max a (Amount (EvPromise (snd ev)))) evs a0.

(** The amounts never go down, starting from [a0]. *)
Fixpoint nonDecreasing (a0 : Z)
    (evs : list (Collaborators * AppEventHermesPromise)) : Prop :=
  match evs with
  | [] => True
  | ev :: rest =>
      a0 <= Amount (EvPromise (snd ev)) /\ nonDecreasing (Amount (EvPromise (snd ev))) rest
  end.

Definition publishCount (st : settler) : nat :=
  length (filter (fun c => isPublish c = true) (calls st)).


(** The calls [resyncState] makes: two reads and the start of a publication. *)
Definition isResyncCall (c : call) : bool :=
  match c with
  | CGetProviderChannel _ _ _ | CPromiseGet _ _ | CPublish _ => true
  | _ => false
  end.

(** A settlement that is submitted and never confirmed: check, mark,
    subscribe, submit, time out, hand the error over, run the deferred calls. *)
Definition timeoutSchedule : list action :=
  [ACaller; ACaller; ACaller; ACaller; AWaiter WTimeout; ACaller;
   AWaiter WTimeout; AWaiter WTimeout].

(** A settlement that is submitted and confirmed by the event [info]. *)
Definition confirmedSchedule (info : PromiseSettled) : list action :=
  [ACaller; ACaller; ACaller; ACaller; AWaiter (WSink (Some info));
   AWaiter (WSink (Some info)); ACaller; AWaiter (WSink (Some info))].

(** What a call of a settlement with beneficiary [b] may look like: the
    transactor call of its variant, and entries that carry [b], the zero
    address standing for none. *)
Definition routedFor (b : option Address) (c : call) : Prop :=
  match c with
  | CSettleAndRebalance _ _ _ => b = None
  | CSettleWithBeneficiary _ b' _ _ => b = Some b'
  | CStore _ _ she =>
      EntryBeneficiary she = match b with Some b' => b' | None => zeroAddress end
  | _ => True
  end.

(** A settlement has marked its provider once it is past [setSettling(true)]
    or has a waiter. *)
Definition marked (p : settleProc) : bool :=
  match caller p with
  | AtSubscribe | AtSubmit | AtAwait => true
  | _ => false
  end
  || match waiter p with
     | NotSpawned => false
     | _ => true
     end.

(** The steps that can give an identity its first entry in the map: the
    loads, the registration, and the [setSettling(true)] of a settlement. *)
Definition createsEntry (l : label) (sys : system) (id : Identity) : Prop :=
  match l with
  | LService id' running => id' = id /\ running = true
  | LRegistration id' status => id' = id /\ status = Registered
  | LNodeLoad id' => id' = id
  | LProc i ACaller =>
      exists p, procs sys !! i = Some p /\ caller p = AtMark /\ provider (rp p) = id
  | _ => False
  end.

(** The systems the settler can be in, whatever the collaborators answer. *)
Inductive reachable (cfg : HermesPromiseSettlerConfig) : system -> Prop :=
  | reachable_initial : reachable cfg initialSystem
  | reachable_step (env : Collaborators) (l : label) (sys sys' : system) :
      reachable cfg sys -> step cfg env l sys = Some sys' -> reachable cfg sys'.

(** Every settlement that has marked its provider finds an entry for it. *)
Definition markedHaveEntries (sys : system) : Prop :=
  Forall (fun p => marked p = true ->
                   is_Some (currentState (core sys) !! provider (rp p)))
         (procs sys).

(** What one [resyncState] does to the map and to the published events:
    nothing when it fails, one overwritten entry and one event otherwise. *)
Inductive resynced (id : Identity) (st : settler) : option error * settler -> Prop :=
  | resync_failed (e : error) (st' : settler) :
      currentState st' = currentState st ->
      publishCount st' = publishCount st ->
      settleQueue st' = settleQueue st ->
      resynced id st (Some e, st')
  | resync_done (s : settlementState) (st' : settler) :
      registered s = true ->
      settleInProgress s = false ->
      currentState st' = <[id := s]> (currentState st) ->
      publishCount st' = S (publishCount st) ->
      settleQueue st' = settleQueue st ->
      resynced id st (None, st').

(** What a step does to the map: nothing, or one write. *)
Inductive mapWrite (m : gmap string settlementState) (id : Identity)
  : gmap string settlementState -> Prop :=
  | write_none : mapWrite m id m
  | write_one (s : settlementState) : mapWrite m id (<[id := s]> m).

(* ===================================================================== *)
(** ** Collaborators used in the examples *)
(* ===================================================================== *)

Module Fixtures.

Definition hermes : Address := 7%N.

Definition config : HermesPromiseSettlerConfig :=
  {| HermesAddress := hermes; Threshold := F64.half; MaxWaitForSettlement := 100 |}.

Definition promiseOf (amount : Z) : Promise :=
  {| Amount := amount; R := []; Signature := []; Hermes := hermes; ChannelID := [] |}.

Definition stored (amount : Z) : HermesPromise :=
  {| hpPromise := promiseOf amount; hpR := "0aff" |}.

(** A chain that answers, a registry that knows ["p"] only, a promise
    storage that holds a promise of 60 for every identity, and a history
    storage that fails. *)
Definition env : Collaborators :=
  {| GetRegistrationStatus := fun id =>
       if String.eqb id "p" then (Registered, None) else (Unregistered, None);
     GetProviderChannel := fun _ _ _ =>
       ({| Balance := Some 100; Settled := Some 0; Beneficiary := zeroAddress |}, None);
     PromiseGet := fun _ _ => (stored 60, None);
     SubscribeToPromiseSettledEvent := fun _ _ => None;
     SettleAndRebalance := fun _ _ _ => None;
     SettleWithBeneficiary_tx := fun _ _ _ _ => None;
     Store := fun _ _ _ => Some (ErrExternal "disk full");
     Accounts := ["p"] |}.

Definition settled : PromiseSettled :=
  {| RawTxHash := 99%N; SettledAmount := Some 60; SettledTotal := Some 60 |}.

Definition promiseEvent (amount : Z) : AppEventHermesPromise :=
  {| EvPromise := promiseOf amount; HermesID := hermes; ProviderID := "p" |}.

(** A settler that holds one entry, for ["p"]. *)
Definition holding (s : settlementState) : settler :=
  setState "p" s NewHermesPromiseSettler.

End Fixtures.

(* ===================================================================== *)
(** ** Further notions about the settler *)
(* ===================================================================== *)

(** The identity whose entry a step of the system may write. *)
Definition subject (l : label) (sys : system) : option Identity :=
  match l with
  | LNodeLoad addr => Some addr
  | LRegistration id _ => Some id
  | LService id _ => Some id
  | LPromise apep => Some (ProviderID apep)
  | LProc i _ =>
      match procs sys !! i with
      | Some p => Some (provider (rp p))
      | None => None
      end
  | _ => None
  end.

Definition isSubscribe (c : call) : bool :=
  match c with CSubscribe _ _ => true | _ => false end.

Definition isCancel (c : call) : bool :=
  match c with CCancel _ _ => true | _ => false end.

(** How many calls of a list satisfy [f]. *)
Definition countCalls (f : call -> bool) (l : list call) : nat :=
  length (filter (fun c => f c = true) l).

(** The calls made between two states of the settler. *)
Definition newCalls (st st' : settler) : list call :=
  drop (length (calls st)) (calls st').

(** How many subscriptions, submissions and history entries a call of
    [settle] can still make from where it stands. *)
Definition subscriptionsLeft (p : settleProc) : nat :=
  match caller p with
  | AtCheck | AtMark | AtSubscribe => 1
  | _ => 0
  end.

Definition submissionsLeft (p : settleProc) : nat :=
  match caller p with
  | AtCheck | AtMark | AtSubscribe | AtSubmit => 1
  | _ => 0
  end.

Definition storesLeft (p : settleProc) : nat :=
  match waiter p with
  | NotSpawned =>
      match caller p with
      | AtCheck | AtMark | AtSubscribe => 1
      | _ => 0
      end
  | Selecting => 1
  | _ => 0
  end.

(** A settlement whose submission fails. *)
Definition failedSubmission : list action := [ACaller; ACaller; ACaller; ACaller].

(** A settlement that is submitted, whose waiter leaves the [select] by the
    case [o] without an event, runs its deferred calls and lets the caller
    return. *)
Definition unconfirmedSchedule (o : waitOutcome) : list action :=
  [ACaller; ACaller; ACaller; ACaller; AWaiter o; AWaiter o; ACaller; AWaiter o].

(** A float that is zero, or positive, or plus infinity. *)
Definition notNegative (f : F64.float64) : Prop :=
  match f with
  | S754_zero _ => True
  | S754_infinity s => s = false
  | S754_finite s _ _ => s = false
  | S754_nan => False
  end.

(** A call of [ForceSettle], or of [SettleWithBeneficiary] when a
    beneficiary is given. *)
Definition requestSettle (env : Collaborators) (id : Identity) (b : option Address)
    (hermesID : Address) (st : settler) : settleProc * settler :=
  match b with
  | None => ForceSettle env id hermesID st
  | Some beneficiary => SettleWithBeneficiary env id beneficiary hermesID st
  end.

(** The waiter of a call of [settle] starts when the subscription is made. *)
Definition waiterStartsAtSubscription (p : settleProc) : Prop :=
  match caller p with
  | AtCheck | AtMark | AtSubscribe => waiter p = NotSpawned
  | _ => True
  end.

(** Collaborators that fail, for the examples. *)
Module Faults.

(** As [Fixtures.env], but the promise storage holds nothing. *)
Definition noPromise : Collaborators :=
  {| GetRegistrationStatus := GetRegistrationStatus Fixtures.env;
     GetProviderChannel := GetProviderChannel Fixtures.env;
     PromiseGet := fun _ _ => (Fixtures.stored 0, Some ErrNotFound);
     SubscribeToPromiseSettledEvent := SubscribeToPromiseSettledEvent Fixtures.env;
     SettleAndRebalance := SettleAndRebalance Fixtures.env;
     SettleWithBeneficiary_tx := SettleWithBeneficiary_tx Fixtures.env;
     Store := Store Fixtures.env;
     Accounts := Accounts Fixtures.env |}.

(** As [Fixtures.env], but the subscription fails. *)
Definition noSubscription : Collaborators :=
  {| GetRegistrationStatus := GetRegistrationStatus Fixtures.env;
     GetProviderChannel := GetProviderChannel Fixtures.env;
     PromiseGet := PromiseGet Fixtures.env;
     SubscribeToPromiseSettledEvent := fun _ _ => Some (ErrExternal "no connection");
     SettleAndRebalance := SettleAndRebalance Fixtures.env;
     SettleWithBeneficiary_tx := SettleWithBeneficiary_tx Fixtures.env;
     Store := Store Fixtures.env;
     Accounts := Accounts Fixtures.env |}.

(** As [Fixtures.env], but the transactor refuses every promise. *)
Definition noTransactor : Collaborators :=
  {| GetRegistrationStatus := GetRegistrationStatus Fixtures.env;
     GetProviderChannel := GetProviderChannel Fixtures.env;
     PromiseGet := PromiseGet Fixtures.env;
     SubscribeToPromiseSettledEvent := SubscribeToPromiseSettledEvent Fixtures.env;
     SettleAndRebalance := fun _ _ _ => Some (ErrExternal "refused");
     SettleWithBeneficiary_tx := fun _ _ _ _ => Some (ErrExternal "refused");
     Store := Store Fixtures.env;
     Accounts := Accounts Fixtures.env |}.

End Faults.

(** A float that is zero, or negative, or minus infinity, or not a number. *)
Definition notPositive (f : F64.float64) : Prop :=
  match f with
  | S754_zero _ => True
  | S754_infinity s => s = true
  | S754_finite s _ _ => s = true
  | S754_nan => True
  end.

(* ===================================================================== *)
(** ** The connection endpoint of the management API (package endpoints) *)
(* ===================================================================== *)

Module Endpoints.

(** The errors the endpoint distinguishes, and the others. *)
Inductive apiError : Type :=
  | ErrAlreadyExists                         (* connection.ErrAlreadyExists *)
  | ErrConnectionCancelled                   (* connection.ErrConnectionCancelled *)
  | ErrNoConnection                          (* connection.ErrNoConnection *)
  | ErrNotRegistered (consumerID : string)   (* "identity %q is not registered. ..." *)
  | ErrNoProposals                           (* "provider has no service proposals" *)
  | ErrOther (msg : string).

Definition StatusBadRequest : Z := 400.
Definition StatusConflict : Z := 409.
Definition StatusExpectationFailed : Z := 417.
Definition StatusInternalServerError : Z := 500.
Definition StatusCreated : Z := 201.
Definition StatusAccepted : Z := 202.
Definition statusConnectCancelled : Z := 499.

Record ConnectOptions : Type := mkConnectOptions {
  DisableKillSwitch : bool;
  DNS : string
}.

(** [contract.ConnectionCreateRequest], with the fields the endpoint reads. *)
Record ConnectionCreateRequest : Type := mkRequest {
  ConsumerID : string;
  ProviderID : string;
  HermesID : string;
  ServiceType : string;
  Options : ConnectOptions
}.

Record ConnectParams : Type := mkConnectParams {
  ParamDisableKillSwitch : bool;
  ParamDNS : string
}.

Record ProposalID : Type := mkProposalID {
  ProposalProviderID : string;
  ProposalServiceType : string
}.

(** The collaborators of the endpoint. [decodeBody] is the JSON decoding of
    the body into the request it is given; [ValidateHasErrors] is
    [cr.Validate().HasErrors()]; a proposal that is nil is [None]. The
    identity and the hermes address are passed as the strings they are made
    from. *)
Record Env : Type := mkEnv {
  configHermesID : string;
  DNSOptionAuto : string;
  decodeBody : string -> ConnectionCreateRequest -> ConnectionCreateRequest * option apiError;
  ValidateHasErrors : ConnectionCreateRequest -> bool;
  GetRegistrationStatus : string -> RegistrationStatus * option apiError;
  Proposal : ProposalID -> option string * option apiError;
  Connect : string -> string -> string -> ConnectParams -> option apiError;
  Disconnect : option apiError;
  ManagerStatus : string
}.

(** What a handler writes to the response. *)
Inductive write : Type :=
  | SendError (err : apiError) (code : Z)
  | SendValidationErrorMessage
  | WriteHeader (code : Z)
  | WriteAsJSON (dto : string).

(** What a handler asks of the connection manager. *)
Inductive managerCall : Type :=
  | CallConnect (consumerID hermesID proposal : string) (params : ConnectParams)
  | CallDisconnect
  | CallStatus.

(** [toConnectionRequest] returns the request or the error, never both. *)
Definition toConnectionRequest (env : Env) (body : string)
  : ConnectionCreateRequest + apiError :=
  let connectionRequest :=
    {| ConsumerID := ""; ProviderID := ""; HermesID := configHermesID env;
       ServiceType := "";
       Options := {| DisableKillSwitch := false; DNS := DNSOptionAuto env |} |} in
  match decodeBody env body connectionRequest with
  | (_, Some err) => inr err
  | (cr, None) => inl cr
  end.

Definition getConnectOptions (env : Env) (cr : ConnectionCreateRequest) : ConnectParams :=
  let dns := if String.eqb (DNS (Options cr)) "" then DNSOptionAuto env
             else DNS (Options cr) in
  {| ParamDisableKillSwitch := DisableKillSwitch (Options cr); ParamDNS := dns |}.

Definition Status (env : Env) : list write * list managerCall :=
  ([WriteAsJSON (ManagerStatus env)], [CallStatus]).

Definition Create (env : Env) (body : string) : list write * list managerCall :=
  match toConnectionRequest env body with
  | inr err => ([SendError err StatusBadRequest], [])
  | inl cr =>
      if ValidateHasErrors env cr then ([SendValidationErrorMessage], [])
      else
        match GetRegistrationStatus env (ConsumerID cr) with
        | (_, Some err) => ([SendError err StatusInternalServerError], [])
        | (status, None) =>
            match status with
            | Unregistered | RegistrationError =>
                ([SendError (ErrNotRegistered (ConsumerID cr)) StatusExpectationFailed], [])
            | _ =>
                match Proposal env {| ProposalProviderID := ProviderID cr;
                                      ProposalServiceType := ServiceType cr |} with
                | (_, Some err) => ([SendError err StatusInternalServerError], [])
                | (None, None) => ([SendError ErrNoProposals StatusBadRequest], [])
                | (Some proposal, None) =>
                    let params := getConnectOptions env cr in
                    let call := CallConnect (ConsumerID cr) (HermesID cr) proposal params in
                    match Connect env (ConsumerID cr) (HermesID cr) proposal params with
                    | Some err =>
                        let code := match err with
                                    | ErrAlreadyExists => StatusConflict
                                    | ErrConnectionCancelled => statusConnectCancelled
                                    | _ => StatusInternalServerError
                                    end in
                        ([SendError err code], [call])
                    | None =>
                        (WriteHeader StatusCreated :: fst (Status env),
                         call :: snd (Status env))
                    end
                end
            end
        end
  end.

Definition Kill (env : Env) : list write * list managerCall :=
  match Disconnect env with
  | Some err =>
      let code := match err with
                  | ErrNoConnection => StatusConflict
                  | _ => StatusInternalServerError
                  end in
      ([SendError err code], [CallDisconnect])
  | None => ([WriteHeader StatusAccepted], [CallDisconnect])
  end.

Definition isSendError (w : write) : bool :=
  match w with SendError _ _ => true | _ => false end.

Definition isCallConnect (c : managerCall) : bool :=
  match c with CallConnect _ _ _ _ => true | _ => false end.

(** A node whose consumer is registered and whose provider has a proposal;
    the request leaves the DNS option empty. *)
Definition sampleRequest : ConnectionCreateRequest :=
  {| ConsumerID := "0xconsumer"; ProviderID := "0xprovider"; HermesID := "0xhermes";
     ServiceType := "openvpn";
     Options := {| DisableKillSwitch := true; DNS := "" |} |}.

Definition sampleEnv : Env :=
  {| configHermesID := "0xhermes";
     DNSOptionAuto := "auto";
     decodeBody := fun _ _ => (sampleRequest, None);
     ValidateHasErrors := fun _ => false;
     GetRegistrationStatus := fun _ => (Registered, None);
     Proposal := fun _ => (Some "proposal", None);
     Connect := fun _ _ _ _ => None;
     Disconnect := None;
     ManagerStatus := "Connected" |}.

End Endpoints.

(* ===================================================================== *)
(** ** The list of sessions of the management API (package contract) *)
(* ===================================================================== *)

Module Contract.

(** [mapSessions]: an array of the length of [sessions], made of zero
    values, is filled index by index. *)
Definition mapSessions {A B : Type} (zero : B) (sessions : list A) (f : A -> B) : list B :=
  snd (fold_left (fun (acc : nat * list B) (se : A) =>
                    (S (fst acc), <[fst acc := f se]> (snd acc)))
                 sessions (0%nat, replicate (length sessions) zero)).

(** [session.History], with the fields [NewSessionDTO] reads; [Started] is
    a time and [Duration] what [GetDuration] returns, in seconds. *)
Record History : Type := mkHistory {
  SessionID : string;
  Direction : string;
  ConsumerID : string;
  AccountantID : string;
  ProviderID : string;
  ServiceType : string;
  ProviderCountry : string;
  Started : Z;
  DataReceived : Z;
  DataSent : Z;
  Duration : Z;
  Tokens : Z;
  Status : string
}.

Record SessionDTO : Type := mkSessionDTO {
  DtoID : string;
  DtoDirection : string;
  DtoConsumerID : string;
  DtoAccountantID : string;
  DtoProviderID : string;
  DtoServiceType : string;
  DtoProviderCountry : string;
  DtoCreatedAt : string;
  DtoDuration : Z;
  DtoBytesReceived : Z;
  DtoBytesSent : Z;
  DtoTokens : Z;
  DtoStatus : string
}.

Definition zeroSessionDTO : SessionDTO :=
  {| DtoID := ""; DtoDirection := ""; DtoConsumerID := ""; DtoAccountantID := "";
     DtoProviderID := ""; DtoServiceType := ""; DtoProviderCountry := "";
     DtoCreatedAt := ""; DtoDuration := 0; DtoBytesReceived := 0; DtoBytesSent := 0;
     DtoTokens := 0; DtoStatus := "" |}.

Section Sessions.

(** [Started.Format(time.RFC3339)]. *)
Variable formatRFC3339 : Z -> string.

Definition NewSessionDTO (se : History) : SessionDTO :=
  {| DtoID := SessionID se;
     DtoDirection := Direction se;
     DtoConsumerID := ConsumerID se;
     DtoAccountantID := AccountantID se;
     DtoProviderID := ProviderID se;
     DtoServiceType := ServiceType se;
     DtoProviderCountry := ProviderCountry se;
     DtoCreatedAt := formatRFC3339 (Started se);
     DtoDuration := Duration se;
     DtoBytesReceived := DataReceived se;
     DtoBytesSent := DataSent se;
     DtoTokens := Tokens se;
     DtoStatus := Status se |}.

(** [NewSessionListResponse]; the response holds the list only. *)
Definition NewSessionListResponse (sessions : list History) : list SessionDTO :=
  mapSessions zeroSessionDTO sessions NewSessionDTO.

End Sessions.

End Contract.

(* ===================================================================== *)
(** ** The detection of the country (package location) *)
(* ===================================================================== *)

Module Location.

Record Env : Type := mkEnv {
  GetPublicIP : string * option string;             (* the resolver of the IP *)
  ResolveCountry : string -> string * option string (* the resolver of the location *)
}.

Inductive lookup : Type :=
  | AskPublicIP
  | AskCountry (ip : string).

(** [DetectCountry]: the country, the error, and the lookups made. *)
Definition DetectCountry (env : Env) : (string * option string) * list lookup :=
  match GetPublicIP env with
  | (_, Some err) => (("", Some err), [AskPublicIP])
  | (ip, None) =>
      match ResolveCountry env ip with
      | (_, Some err) => (("", Some err), [AskPublicIP; AskCountry ip])
      | (country, None) => ((country, None), [AskPublicIP; AskCountry ip])
      end
  end.

End Location.

(* ===================================================================== *)
(** ** The session handlers of a provider (package service) *)
(* ===================================================================== *)

Module Service.


(** [pb.SessionInfo]. *)
Record SessionInfo : Type := mkSessionInfo {
  InfoConsumerID : string;
  InfoSessionID : string
}.








(** What the collaborators of the destroy handler answer. *)
Record DestroyEnv : Type := mkDestroyEnv {
  UnmarshalInfo : SessionInfo * option string;
  Destroy : string -> string -> option string;
  OK : option string
}.

Inductive destroyEffect : Type :=
  | CallDestroy (consumerID sessionID : string)
  | CallDone.

(** The handler of [subscribeSessionDestroy]: what it returns, and what the
    goroutine it starts does, if it starts one. *)
Definition handleSessionDestroy (env : DestroyEnv)
  : option string * option (list destroyEffect) :=
  match UnmarshalInfo env with
  | (_, Some err) => (Some err, None)
  | (si, None) =>
      let goroutine :=
        match Destroy env (InfoConsumerID si) (InfoSessionID si) with
        | Some _ => [CallDestroy (InfoConsumerID si) (InfoSessionID si); CallDone]
        | None => [CallDestroy (InfoConsumerID si) (InfoSessionID si); CallDone]
        end in
      (OK env, Some goroutine)
  end.

End Service.

(* ===================================================================== *)
(** ** The command line (package cli) *)
(* ===================================================================== *)

Module Cli.

(** The white space of ASCII, as [strings.TrimSpace] and [strings.Fields]
    see it: tab, line feed, vertical tab, form feed, carriage return, space.
    On a string with a byte above 127 the two functions of Go go by the
    white space of Unicode; the model is theirs on ASCII strings. *)
Definition isSpace (c : ascii) : bool :=
  let n := N_of_ascii c in
  ((9 <=? n) && (n <=? 13) || (n =? 32))%N.

Definition isASCII (s : string) : bool :=
  forallb (fun c => (N_of_ascii c <? 128)%N) (list_ascii_of_string s).

Fixpoint trimLeft (l : list ascii) : list ascii :=
  match l with
  | c :: rest => if isSpace c then trimLeft rest else l
  | [] => []
  end.

Definition TrimSpace (s : string) : string :=
  string_of_list_ascii
    (rev (trimLeft (rev (trimLeft (list_ascii_of_string s))))).

(** [fieldsFrom cur l]: the fields of [l] after the characters [cur], held
    in reverse, of a field that has begun. *)
Fixpoint fieldsFrom (cur : list ascii) (l : list ascii) : list string :=
  match l with
  | [] =>
      match cur with
      | [] => []
      | _ => [string_of_list_ascii (rev cur)]
      end
  | c :: rest =>
      if isSpace c then
        match cur with
        | [] => fieldsFrom [] rest
        | _ => string_of_list_ascii (rev cur) :: fieldsFrom [] rest
        end
      else fieldsFrom (c :: cur) rest
  end.

Definition Fields (s : string) : list string :=
  fieldsFrom [] (list_ascii_of_string s).

Definition HasPrefix (s p : string) : bool := String.prefix p s.

(** [s[n:]], for [n] within the string. *)
Definition sliceFrom (n : nat) (s : string) : string :=
  String.substring n (String.length s - n) s.

(** What the client of the management API answers. *)
Record Client : Type := mkClient {
  NewIdentity : string * option string;            (* the address, or an error *)
  Connect : string -> string -> option string;
  Disconnect : option string;
  Status : (string * string) * option string;      (* status and session id *)
  GetIdentities : list string * option string      (* the addresses *)
}.

(** What a command does: a call of the client, or a line of output by one
    of the printing functions of the package. *)
Inductive effect : Type :=
  | CallNewIdentity
  | CallConnect (consumer provider : string)
  | CallDisconnect
  | CallStatus
  | CallGetIdentities
  | info (args : list string)
  | warn (err : string)
  | success (args : list string)
  | status (args : list string)
  | Println (args : list string)
  | PrintTree
  | Exit (code : Z).

Definition help : list effect :=
  [info ["Mysterium CLI tequilapi commands:"]; PrintTree].

Definition connect (c : Client) (line : string) : list effect :=
  let connectionArgs := TrimSpace (sliceFrom 7 line) in
  if (String.length connectionArgs =? 0)%nat then
    [info ["Press tab to select identity or create a new one. Connect <your-identity> <node-identity>"]]
  else
    match Fields connectionArgs with
    | [clientIdentity; nodeIdentity] =>
        let dial (clientIdentity : string) : list effect :=
          status ["CONNECTING"; "from:"; clientIdentity; "to:"; nodeIdentity]
          :: CallConnect clientIdentity nodeIdentity
          :: match Connect c clientIdentity nodeIdentity with
             | Some err => [warn err]
             | None => [success ["Connected."]]
             end in
        if String.eqb clientIdentity "new" then
          match NewIdentity c with
          | (_, Some err) => [CallNewIdentity; warn err]
          | (address, None) =>
              CallNewIdentity :: success ["New identity created:"; address] :: dial address
          end
        else dial clientIdentity
    | _ =>
        [info ["Please type in the node identity. Connect <your-identity> <node-identity>"]]
    end.

Definition disconnect (c : Client) : list effect :=
  match Disconnect c with
  | Some err => [CallDisconnect; warn err]
  | None => [CallDisconnect; success ["Disconnected."]]
  end.

Definition showStatus (c : Client) : list effect :=
  match Status c with
  | (_, Some err) => [CallStatus; warn err]
  | ((st, sid), None) => [CallStatus; info ["Status:"; st]; info ["SID"; sid]]
  end.

Definition newline : string := String "010" EmptyString.

Definition identities (c : Client) (line : string) : list effect :=
  let action := TrimSpace (sliceFrom 10 line) in
  if (String.length action =? 0)%nat then
    [info [String.append "identities command:"
             (String.append newline
                (String.append "    list" (String.append newline "    new")))]]
  else if String.eqb action "list" then
    match GetIdentities c with
    | (_, Some err) => [CallGetIdentities; Println ["Error occured:"; err]]
    | (ids, None) => CallGetIdentities :: map (fun address => status ["+"; address]) ids
    end
  else if String.eqb action "new" then
    match NewIdentity c with
    | (_, Some err) => [CallNewIdentity; warn err]
    | (address, None) => [CallNewIdentity; success ["New identity created:"; address]]
    end
  else [].

Definition handleActions (c : Client) (line : string) : list effect :=
  let line := TrimSpace line in
  if HasPrefix line "connect" then connect c line
  else if String.eqb line "exit" || String.eqb line "quit" then [Exit 0]
  else if String.eqb line "help" then help
  else if String.eqb line "status" then showStatus c
  else if String.eqb line "disconnect" then disconnect c
  else if HasPrefix line "identities" then identities c line
  else if (0 <? String.length line)%nat then help
  else [].

(** [getIdentityOptionList]: the options, and the warning if there is one. *)
Definition getIdentityOptionList (c : Client) (line : string)
  : list string * list effect :=
  match GetIdentities c with
  | (_, Some err) => (["new"], [CallGetIdentities; warn err])
  | (ids, None) =>
      (fold_left (fun identities address => identities ++ [address]) ids ["new"],
       [CallGetIdentities])
  end.

Definition isCallConnect (e : effect) : bool :=
  match e with CallConnect _ _ => true | _ => false end.

(** Strings made of white space only, and strings without white space. *)
Definition allSpace (s : string) : bool :=
  forallb isSpace (list_ascii_of_string s).

Definition noSpace (s : string) : bool :=
  forallb (fun c => negb (isSpace c)) (list_ascii_of_string s).

(** A list that does not begin with white space. *)
Definition beginsWithWord (l : list ascii) : Prop :=
  match l with
  | [] => False
  | ch :: _ => isSpace ch = false
  end.

(** A client that accepts every request and knows two identities. *)
Definition sampleClient : Client :=
  {| NewIdentity := ("0xnew", None);
     Connect := fun _ _ => None;
     Disconnect := None;
     Status := (("Connected", "sid-1"), None);
     GetIdentities := (["0xone"; "0xtwo"], None) |}.

End Cli.

(* ===================================================================== *)
(** ** The policy *)
(* ===================================================================== *)

Section Policy.

Example needsSettling_below_threshold :
  needsSettling (stateOf 100 0 20 false true) F64.half = false.
Proof. vm_compute. reflexivity. Qed.

Example needsSettling_above_threshold :
  needsSettling (stateOf 100 0 60 false true) F64.half = true.
Proof. vm_compute. reflexivity. Qed.

Lemma compare_cont_Eq_swap (m1 m2 : positive) :
  Pos.compare_cont Eq m2 m1 = CompOpp (Pos.compare_cont Eq m1 m2).
Proof. apply (Pos.compare_antisym m1 m2). Qed.

(** The comparison of [SpecFloat] is antisymmetric. *)
Lemma SFcompare_swap (x y : spec_float) :
  SFcompare y x = option_map CompOpp (SFcompare x y).
Proof.
  destruct x as [sx | sx | | sx mx ex], y as [sy | sy | | sy my ey];
    simpl; try reflexivity;
    try (destruct sx; reflexivity); try (destruct sy; reflexivity);
    try (destruct sx, sy; reflexivity).
  destruct sx, sy; simpl; try reflexivity;
    rewrite (Z.compare_antisym ex ey); destruct (ex ?= ey); simpl;
    try reflexivity; rewrite compare_cont_Eq_swap;
    destruct (Pos.compare_cont Eq mx my); reflexivity.
Qed.

(** [t <= u] excludes [u < t]. *)
Lemma leb_not_ltb (t u : F64.float64) :
  F64.leb t u = true -> F64.ltb u t = false.
Proof.
  unfold F64.leb, F64.ltb, SFleb, SFltb. rewrite (SFcompare_swap t u).
  destruct (SFcompare t u) as [[]|]; simpl; congruence.
Qed.

(** Rounding never produces NaN: shifts and the rounding to nearest even
    keep a mantissa that is not negative. *)
Lemma shr_1_nonneg (mrs : shr_record) : 0 <= shr_m mrs -> 0 <= shr_m (shr_1 mrs).
Proof.
  destruct mrs as [m r s]. simpl.
  destruct m as [| p | p]; simpl; try lia; destruct p; simpl; lia.
Qed.

Lemma iter_pos_shr_1_nonneg (p : positive) :
  forall mrs, 0 <= shr_m mrs -> 0 <= shr_m (SpecFloat.iter_pos shr_1 p mrs).
Proof.
  induction p as [p IH | p IH |]; intros mrs H; simpl.
  - apply IH, IH, shr_1_nonneg, H.
  - apply IH, IH, H.
  - apply shr_1_nonneg, H.
Qed.

Lemma shr_fexp_nonneg (m e : Z) (l : location) :
  0 <= m -> 0 <= shr_m (fst (shr_fexp F64.prec F64.emax m e l)).
Proof.
  intros H. unfold shr_fexp, shr.
  assert (H0 : 0 <= shr_m (shr_record_of_loc m l))
    by (destruct l as [| []]; simpl; exact H).
  destruct (_ - e); simpl; try exact H0.
  apply iter_pos_shr_1_nonneg, H0.
Qed.

Lemma round_nearest_even_nonneg (m : Z) (l : location) :
  0 <= m -> 0 <= round_nearest_even m l.
Proof.
  intros H. destruct l as [| []]; simpl; try lia.
  destruct (Z.even m); lia.
Qed.

Lemma binary_round_aux_not_nan (sx : bool) (mx ex : Z) (lx : location) :
  0 <= mx -> binary_round_aux F64.prec F64.emax sx mx ex lx <> S754_nan.
Proof.
  intros H. unfold binary_round_aux.
  pose proof (shr_fexp_nonneg mx ex lx H) as H1.
  destruct (shr_fexp F64.prec F64.emax mx ex lx) as [mrs' e'] eqn:E1. simpl in H1.
  pose proof (shr_fexp_nonneg _ e' loc_Exact
                (round_nearest_even_nonneg _ (loc_of_shr_record mrs') H1)) as H2.
  destruct (shr_fexp F64.prec F64.emax (round_nearest_even _ _) e' loc_Exact)
    as [mrs'' e''] eqn:E2. simpl in H2.
  destruct (shr_m mrs'') as [| p | p]; try discriminate; try lia.
  destruct (e'' <=? _); discriminate.
Qed.

Lemma of_uint64_not_nan (x : Z) : F64.of_uint64 x <> S754_nan.
Proof.
  unfold F64.of_uint64, binary_normalize.
  destruct x as [| p | p]; try discriminate;
    unfold binary_round; destruct (shl_align _ _ _) as [mz ez];
    apply binary_round_aux_not_nan; lia.
Qed.

(** Only NaN is incomparable. *)
Lemma SFcompare_None (x y : spec_float) :
  SFcompare x y = None -> x = S754_nan \/ y = S754_nan.
Proof.
  destruct x as [sx | sx | | sx mx ex], y as [sy | sy | | sy my ey];
    simpl; try discriminate; auto.
Qed.

(** Against a number, "not below" is "at least" unless the bound is NaN. *)
Lemma not_ltb_leb (x : Z) (t : F64.float64) :
  t <> S754_nan ->
  F64.ltb (F64.of_uint64 x) t = false -> F64.leb t (F64.of_uint64 x) = true.
Proof.
  intros Ht. unfold F64.leb, F64.ltb, SFleb, SFltb.
  rewrite (SFcompare_swap t (F64.of_uint64 x)).
  destruct (SFcompare t (F64.of_uint64 x)) as [[]|] eqn:E; simpl; try congruence.
  destruct (SFcompare_None _ _ E) as [H | H]; [contradiction |].
  exfalso. exact (of_uint64_not_nan x H).
Qed.

Lemma ltb_right_not_nan (x t : F64.float64) : F64.ltb x t = true -> t <> S754_nan.
Proof.
  unfold F64.ltb, SFltb. intros H ->. destruct x; simpl in H; discriminate.
Qed.

(** Without overflow the available balance is the sum of the two amounts. *)
Lemma availableBalance_exact (ss : settlementState) (bal settled : Z) :
  Balance (channel ss) = Some bal ->
  Settled (channel ss) = Some settled ->
  0 <= bal -> 0 <= settled -> bal + settled < U64.modulus ->
  availableBalance ss = bal + settled.
Proof.
  intros Hb Hs Hb0 Hs0 Hlt.
  unfold availableBalance, balanceU64, settledU64, U64.add, U64.of_big, U64.wrap.
  rewrite Hb, Hs, !Z.abs_eq by assumption.
  rewrite (Z.mod_small bal), (Z.mod_small settled), Z.mod_small; lia.
Qed.

(** With overflow it is not: two amounts of 2^63 add up to nothing. *)
Example availableBalance_wraps :
  availableBalance (stateOf (2 ^ 63) (2 ^ 63) 0 false true) = 0.
Proof. vm_compute. reflexivity. Qed.

(** The value of [needsSettling] as one boolean expression. *)
Lemma needsSettling_eq (ss : settlementState) (threshold : F64.float64) :
  needsSettling ss threshold =
    registered ss && negb (settleInProgress ss)
    && negb (F64.ltb (F64.of_uint64 (unsettledBalance ss))
                     (F64.mul threshold (F64.of_uint64 (availableBalance ss))))
    && F64.ltb (F64.of_uint64 (balance ss))
               (F64.mul threshold (F64.of_uint64 (availableBalance ss))).
Proof.
  unfold needsSettling.
  destruct (registered ss), (settleInProgress ss); simpl; try reflexivity.
  destruct (F64.ltb (F64.of_uint64 (unsettledBalance ss)) _); simpl; try reflexivity.
  destruct (F64.ltb (F64.of_uint64 (balance ss)) _); reflexivity.
Qed.

(** C1. [needsSettling] is false for a state that is not registered or has
    a settlement in progress. Otherwise, with
    [T = threshold * float64(availableBalance)], where the available
    balance is the [uint64] sum of the channel balance and the settled
    amount, the unsettled balance is [safeSub] of the promised amount and
    the settled amount, and the balance is [safeSub] of the available
    balance and the promised amount: it is false when the unsettled balance
    is below [T], true when the unsettled balance is at least [T] and the
    balance is below [T], and false in every other case. *)
Theorem needsSettling_policy (ss : settlementState) (threshold : F64.float64) :
  let available := availableBalance ss in
  let unsettled := unsettledBalance ss in
  let T := F64.mul threshold (F64.of_uint64 available) in
  available = U64.add (balanceU64 ss) (settledU64 ss) /\
  unsettled = safeSub (Amount (lastPromise ss)) (settledU64 ss) /\
  balance ss = safeSub available (Amount (lastPromise ss)) /\
  (registered ss = false \/ settleInProgress ss = true ->
     needsSettling ss threshold = false) /\
  (registered ss = true -> settleInProgress ss = false ->
     (F64.ltb (F64.of_uint64 unsettled) T = true ->
        needsSettling ss threshold = false) /\
     (F64.leb T (F64.of_uint64 unsettled) = true ->
      F64.ltb (F64.of_uint64 (balance ss)) T = true ->
        needsSettling ss threshold = true) /\
     (F64.ltb (F64.of_uint64 unsettled) T = false ->
      ~ (F64.leb T (F64.of_uint64 unsettled) = true /\
         F64.ltb (F64.of_uint64 (balance ss)) T = true) ->
        needsSettling ss threshold = false)).
Proof.
  intros available unsettled T. subst available unsettled T.
  split; [reflexivity |]. split; [reflexivity |]. split; [reflexivity |].
  split; [| intros Hreg Hprog; repeat split].
  - rewrite needsSettling_eq. intros [-> | ->]; simpl; [reflexivity |].
    destruct (registered ss); reflexivity.
  - intros Hlt. rewrite needsSettling_eq, Hlt.
    destruct (registered ss), (settleInProgress ss); reflexivity.
  - intros Hle Hb. rewrite needsSettling_eq, Hreg, Hprog, Hb, (leb_not_ltb _ _ Hle).
    reflexivity.
  - intros Hnlt Hnot. rewrite needsSettling_eq, Hreg, Hprog, Hnlt. simpl.
    destruct (F64.ltb (F64.of_uint64 (balance ss)) _) eqn:Hb; [| reflexivity].
    exfalso. apply Hnot. split; [| reflexivity].
    apply not_ltb_leb; [| exact Hnlt]. exact (ltb_right_not_nan _ _ Hb).
Qed.

Lemma needsSettling_policy_witness :
  needsSettling (stateOf 100 0 60 false true) F64.half = true.
Proof.
  apply (needsSettling_policy (stateOf 100 0 60 false true) F64.half);
    vm_compute; reflexivity.
Defined.

End Policy.

(* ===================================================================== *)
(** ** Earnings and promise events *)
(* ===================================================================== *)

Section Handlers.

Variable cfg : HermesPromiseSettlerConfig.

Lemma lookupState_Some (st : settler) (id : Identity) (s : settlementState) :
  currentState st !! id = Some s -> lookupState st id = s.
Proof. unfold lookupState. intros ->. reflexivity. Qed.

Lemma lookupState_None (st : settler) (id : Identity) :
  currentState st !! id = None -> lookupState st id = zeroState.
Proof. unfold lookupState. intros ->. reflexivity. Qed.

(** C10. For an identity without an entry, [GetEarnings] returns the zero
    earnings (lifetime balance 0, unsettled balance 0) and leaves the
    settler, and so the map of states, as it was. *)
Theorem GetEarnings_unknown (id : Identity) (st : settler) :
  currentState st !! id = None ->
  GetEarnings id st = (zeroEarnings, st) /\
  LifetimeBalance (fst (GetEarnings id st)) = 0 /\
  UnsettledBalance (fst (GetEarnings id st)) = 0 /\
  currentState (snd (GetEarnings id st)) !! id = None.
Proof.
  intros Hnone. unfold GetEarnings. rewrite (lookupState_None _ _ Hnone).
  simpl. repeat split; try reflexivity. exact Hnone.
Qed.

Lemma GetEarnings_unknown_witness :
  GetEarnings "q" (Fixtures.holding (stateOf 100 0 60 false true))
    = (zeroEarnings, Fixtures.holding (stateOf 100 0 60 false true)).
Proof.
  apply (GetEarnings_unknown "q" (Fixtures.holding (stateOf 100 0 60 false true))).
  vm_compute. reflexivity.
Defined.

Lemma initiateSettling_currentState (env : Collaborators) (id : Identity)
    (h : Address) (st : settler) :
  currentState (initiateSettling env id h st) = currentState st.
Proof.
  unfold initiateSettling. destruct (PromiseGet env id h) as [hp [e |]]; [reflexivity |].
  destruct (hexDecodeString (hpR hp)); reflexivity.
Qed.

(** A promise for a registered provider replaces the stored one. *)
Lemma handleHermesPromiseReceived_registered (env : Collaborators)
    (apep : AppEventHermesPromise) (st : settler) (s : settlementState) :
  currentState st !! ProviderID apep = Some s ->
  registered s = true ->
  currentState (handleHermesPromiseReceived cfg env apep st)
    = <[ProviderID apep := withPromise s (EvPromise apep)]> (currentState st).
Proof.
  intros Hs Hreg. unfold handleHermesPromiseReceived. rewrite Hs, Hreg. simpl.
  destruct (needsSettling _ _); [rewrite initiateSettling_currentState |]; reflexivity.
Qed.

(** C6, as the code has it. For a provider whose state exists with
    [registered = false], a promise event is skipped: the settler is left
    as it was, so the stored last promise is not updated, nothing is added
    to the settle queue and no call is made, to the transactor or to
    anything else; [needsSettling] is false for that state. *)
Theorem promise_for_unregistered_skipped (env : Collaborators)
    (apep : AppEventHermesPromise) (st : settler) (s : settlementState) :
  currentState st !! ProviderID apep = Some s ->
  registered s = false ->
  let st' := handleHermesPromiseReceived cfg env apep st in
  st' = st /\
  currentState st' !! ProviderID apep = Some s /\
  needsSettling s (Threshold cfg) = false /\
  settleQueue st' = settleQueue st /\
  calls st' = calls st.
Proof.
  intros Hs Hreg st'. subst st'.
  assert (E : handleHermesPromiseReceived cfg env apep st = st)
    by (unfold handleHermesPromiseReceived; rewrite Hs, Hreg; reflexivity).
  rewrite E. repeat split; try reflexivity; try exact Hs.
  unfold needsSettling. rewrite Hreg. reflexivity.
Qed.

Lemma handlePromises_registered (id : Identity)
    (evs : list (Collaborators * AppEventHermesPromise)) :
  forall (st : settler) (s : settlementState),
    currentState st !! id = Some s ->
    registered s = true ->
    Forall (fun ev => ProviderID (snd ev) = id) evs ->
    currentState (handlePromises cfg evs st) !! id
      = Some (withPromise s (lastReceived (lastPromise s) evs)).
Proof.
  induction evs as [| [env ev] rest IH]; intros st s Hs Hreg Hall; simpl.
  - rewrite Hs. destruct s; reflexivity.
  - inversion Hall as [| x l Hid Hrest]; subst. simpl in *.
    rewrite (IH _ (withPromise s (EvPromise ev))); try assumption.
    + reflexivity.
    + rewrite (handleHermesPromiseReceived_registered env ev st s); try assumption.
      apply lookup_insert_eq.
Qed.

Lemma maxObserved_nonDecreasing (evs : list (Collaborators * AppEventHermesPromise)) :
  forall (p0 : Promise) (a0 : Z),
    a0 = Amount p0 ->
    nonDecreasing a0 evs ->
    Amount (lastReceived p0 evs) = maxObserved a0 evs.
Proof.
  induction evs as [| [env ev] rest IH]; intros p0 a0 Ha Hnd; simpl.
  - symmetry. exact Ha.
  - destruct Hnd as [Hle Hrest]. simpl in *.
    rewrite (IH (EvPromise ev) (Amount (EvPromise ev))); try assumption; try reflexivity.
    f_equal. lia.
Qed.

(** C2, as the code has it. For a provider with a registered state, every
    promise event replaces the stored last promise, whatever its amount:
    after any sequence of promise events for that provider the stored last
    promise is the one of the last event, and its amount is the maximum
    amount ever observed when the amounts arrive in non-decreasing order. *)
Theorem last_promise_is_last_received (id : Identity)
    (evs : list (Collaborators * AppEventHermesPromise))
    (st : settler) (s : settlementState) :
  currentState st !! id = Some s ->
  registered s = true ->
  Forall (fun ev => ProviderID (snd ev) = id) evs ->
  let st' := handlePromises cfg evs st in
  lastPromise (lookupState st' id) = lastReceived (lastPromise s) evs /\
  (nonDecreasing (Amount (lastPromise s)) evs ->
     Amount (lastPromise (lookupState st' id))
       = maxObserved (Amount (lastPromise s)) evs).
Proof.
  intros Hs Hreg Hall st'. subst st'.
  rewrite (lookupState_Some _ _ _ (handlePromises_registered id evs st s Hs Hreg Hall)).
  simpl. split; [reflexivity |]. intros Hnd.
  apply maxObserved_nonDecreasing; [reflexivity | exact Hnd].
Qed.

End Handlers.

(** A promise of 60 after a stored promise of 80 is not discarded: the stored
    amount becomes 60, below the maximum observed. *)
Lemma smaller_promise_overwrites :
  let st := Fixtures.holding (stateOf 100 0 80 false true) in
  let st' := handleHermesPromiseReceived Fixtures.config Fixtures.env
               (Fixtures.promiseEvent 60) st in
  registered (lookupState st "p") = true /\
  Amount (lastPromise (lookupState st "p")) = 80 /\
  Amount (lastPromise (lookupState st' "p")) = 60 /\
  Amount (lastPromise (lookupState st' "p")) <> Z.max 80 60.
Proof. vm_compute. repeat split; congruence. Qed.

Lemma last_promise_is_last_received_witness :
  Amount (lastPromise (lookupState
    (handlePromises Fixtures.config
       [(Fixtures.env, Fixtures.promiseEvent 20); (Fixtures.env, Fixtures.promiseEvent 30)]
       (Fixtures.holding (stateOf 100 0 10 false true))) "p")) = 30.
Proof.
  apply (last_promise_is_last_received Fixtures.config "p"
           [(Fixtures.env, Fixtures.promiseEvent 20); (Fixtures.env, Fixtures.promiseEvent 30)]
           (Fixtures.holding (stateOf 100 0 10 false true))
           (stateOf 100 0 10 false true)).
  - vm_compute. reflexivity.
  - reflexivity.
  - repeat constructor.
  - simpl. lia.
Defined.

(** A promise of 20 for a provider that is not registered leaves the stored
    promise of 0 in place. *)
Lemma unregistered_promise_not_stored :
  let st := Fixtures.holding (stateOf 100 0 0 false false) in
  let st' := handleHermesPromiseReceived Fixtures.config Fixtures.env
               (Fixtures.promiseEvent 20) st in
  registered (lookupState st "p") = false /\
  lastPromise (lookupState st' "p") <> EvPromise (Fixtures.promiseEvent 20).
Proof. vm_compute. split; [reflexivity | congruence]. Qed.

Lemma promise_for_unregistered_skipped_witness :
  handleHermesPromiseReceived Fixtures.config Fixtures.env (Fixtures.promiseEvent 20)
    (Fixtures.holding (stateOf 100 0 0 false false))
  = Fixtures.holding (stateOf 100 0 0 false false).
Proof.
  apply (promise_for_unregistered_skipped Fixtures.config Fixtures.env
           (Fixtures.promiseEvent 20)
           (Fixtures.holding (stateOf 100 0 0 false false))
           (stateOf 100 0 0 false false)).
  - vm_compute. reflexivity.
  - reflexivity.
Defined.

(* ===================================================================== *)
(** ** Loading and resynchronising the state *)
(* ===================================================================== *)

Section Loading.

Variable cfg : HermesPromiseSettlerConfig.

Lemma publishCount_logCall (c : call) (st : settler) :
  publishCount (logCall c st)
    = (publishCount st + (if isPublish c then 1 else 0))%nat.
Proof.
  unfold publishCount, logCall. simpl. rewrite filter_app, length_app.
  f_equal. destruct c; reflexivity.
Qed.

Lemma publishCount_setState (id : Identity) (s : settlementState) (st : settler) :
  publishCount (setState id s st) = publishCount st.
Proof. reflexivity. Qed.

Lemma resyncStore_resynced (id : Identity) (ch : ProviderChannel)
    (hp : HermesPromise) (st0 st : settler) :
  currentState st = currentState st0 ->
  publishCount st = publishCount st0 ->
  settleQueue st = settleQueue st0 ->
  resynced id st0 (resyncStore id ch hp st).
Proof.
  intros Hc Hp Hq. unfold resyncStore.
  apply resync_done
    with (s := {| channel := ch; lastPromise := hpPromise hp;
                  settleInProgress := false; registered := true |}).
  - reflexivity.
  - reflexivity.
  - simpl. rewrite Hc. reflexivity.
  - rewrite publishCount_setState, publishCount_logCall. simpl. lia.
  - exact Hq.
Qed.

Lemma resyncState_resynced (env : Collaborators) (id : Identity) (st : settler) :
  resynced id st (resyncState cfg env id st).
Proof.
  unfold resyncState.
  destruct (GetProviderChannel env (HermesAddress cfg) id true) as [ch [e |]].
  - apply resync_failed; try reflexivity.
    rewrite publishCount_logCall. simpl. lia.
  - destruct (PromiseGet env id (HermesAddress cfg)) as [hp [e |]].
    + destruct (isErrNotFound e); simpl.
      * apply resyncStore_resynced; try reflexivity.
        rewrite !publishCount_logCall. simpl. lia.
      * apply resync_failed; try reflexivity.
        rewrite !publishCount_logCall. simpl. lia.
    + apply resyncStore_resynced; try reflexivity.
      rewrite !publishCount_logCall. simpl. lia.
Qed.

Lemma loadInitialState_loaded (env : Collaborators) (id : Identity) (st : settler) :
  is_Some (currentState st !! id) -> loadInitialState cfg env id st = (None, st).
Proof. intros [s Hs]. unfold loadInitialState. rewrite Hs. reflexivity. Qed.

(** What one [loadInitialState] does: nothing to the map and no event, or
    a new entry for a registered identity that had none and one event. *)
Lemma loadInitialState_cases (env : Collaborators) (id : Identity) (st : settler) :
  let st' := snd (loadInitialState cfg env id st) in
  (currentState st' = currentState st /\ publishCount st' = publishCount st) \/
  (currentState st !! id = None /\
   isRegistered (fst (GetRegistrationStatus env id)) = true /\
   (exists s, currentState st' = <[id := s]> (currentState st)) /\
   publishCount st' = S (publishCount st)).
Proof.
  unfold loadInitialState.
  destruct (currentState st !! id) as [s |] eqn:Hs; [left; split; reflexivity |].
  destruct (GetRegistrationStatus env id) as [status [e |]] eqn:Hstat; simpl.
  - left. split; [reflexivity |]. rewrite publishCount_logCall. simpl. lia.
  - destruct (isRegistered status) eqn:Hreg; simpl.
    + pose proof (resyncState_resynced env id (logCall (CGetRegistrationStatus id) st)) as Hr.
      inversion Hr as [e st' Hc Hp Hq Heq | s st' Hreg' Hprog Hc Hp Hq Heq]; simpl.
      * left. split; [exact Hc |]. rewrite Hp, publishCount_logCall. simpl. lia.
      * right. repeat split; try reflexivity.
        -- exists s. exact Hc.
        -- rewrite Hp, publishCount_logCall. simpl. lia.
    + left. split; [reflexivity |]. rewrite publishCount_logCall. simpl. lia.
Qed.

Lemma loadInitialState_unregistered (env : Collaborators) (id : Identity) (st : settler) :
  isRegistered (fst (GetRegistrationStatus env id)) = false ->
  currentState (snd (loadInitialState cfg env id st)) = currentState st.
Proof.
  intros Hnot.
  destruct (loadInitialState_cases env id st) as [[Hc _] | (_ & Hreg & _)];
    [exact Hc | congruence].
Qed.

(** The effect of [resyncState] on the map and on the number of events
    depends on the settler through its map only. *)
Lemma resyncState_agree (env : Collaborators) (id : Identity) (st st' : settler) :
  currentState st = currentState st' ->
  currentState (snd (resyncState cfg env id st))
    = currentState (snd (resyncState cfg env id st')) /\
  exists d : nat,
    publishCount (snd (resyncState cfg env id st)) = (publishCount st + d)%nat /\
    publishCount (snd (resyncState cfg env id st')) = (publishCount st' + d)%nat.
Proof.
  intros Hc. unfold resyncState, resyncStore.
  destruct (GetProviderChannel env (HermesAddress cfg) id true) as [ch [e |]];
    [| destruct (PromiseGet env id (HermesAddress cfg)) as [hp [e |]];
       [destruct (isErrNotFound e) |]];
    simpl; rewrite ?Hc; (split; [reflexivity |]);
    rewrite ?publishCount_setState, ?publishCount_logCall; simpl;
    first [ exists 0%nat; lia | exists 1%nat; lia ].
Qed.

Lemma loadInitialState_agree (env : Collaborators) (id : Identity) (st st' : settler) :
  currentState st = currentState st' ->
  currentState (snd (loadInitialState cfg env id st))
    = currentState (snd (loadInitialState cfg env id st')) /\
  exists d : nat,
    publishCount (snd (loadInitialState cfg env id st)) = (publishCount st + d)%nat /\
    publishCount (snd (loadInitialState cfg env id st')) = (publishCount st' + d)%nat.
Proof.
  intros Hc. unfold loadInitialState. rewrite Hc.
  destruct (currentState st' !! id) as [s |]; simpl.
  - split; [exact Hc |]. exists 0%nat. lia.
  - destruct (GetRegistrationStatus env id) as [status [e |]]; simpl.
    + split; [exact Hc |]. exists 0%nat. rewrite !publishCount_logCall. simpl. lia.
    + destruct (isRegistered status); simpl.
      * destruct (resyncState_agree env id (logCall (CGetRegistrationStatus id) st)
                    (logCall (CGetRegistrationStatus id) st') Hc) as [Hm [d [Hd Hd']]].
        split; [exact Hm |]. exists d.
        rewrite Hd, Hd', !publishCount_logCall. simpl. lia.
      * split; [exact Hc |]. exists 0%nat. rewrite !publishCount_logCall. simpl. lia.
Qed.

(** C8. [loadInitialState] is idempotent per identity. A call for an
    identity whose state is loaded changes nothing; a second consecutive
    call leaves the map and the number of published earnings events as the
    first call left them; two calls, whatever the collaborators answer to
    each, publish at most one earnings event, and when the first call loads
    the state of an identity that had none the map has exactly one entry
    more, the one of that identity; a call for an identity that is not
    registered leaves the map as it was. *)
Theorem loadInitialState_idempotent (env env' : Collaborators) (id : Identity)
    (st : settler) :
  let st1 := snd (loadInitialState cfg env id st) in
  let st2 := snd (loadInitialState cfg env id st1) in
  let st2' := snd (loadInitialState cfg env' id st1) in
  (is_Some (currentState st1 !! id) ->
     loadInitialState cfg env' id st1 = (None, st1)) /\
  (currentState st2 = currentState st1 /\ publishCount st2 = publishCount st1) /\
  (publishCount st2' <= publishCount st + 1)%nat /\
  (currentState st !! id = None -> is_Some (currentState st1 !! id) ->
     size (currentState st2') = S (size (currentState st)) /\
     dom (currentState st2') = {[id]} ∪ dom (currentState st)) /\
  (isRegistered (fst (GetRegistrationStatus env id)) = false ->
     currentState st1 = currentState st).
Proof.
  intros st1 st2 st2'.
  pose proof (loadInitialState_cases env id st) as H1. fold st1 in H1.
  split; [apply loadInitialState_loaded |].
  split; [| split; [| split]].
  - (* the same answers a second time *)
    destruct H1 as [[Hc Hp] | (Hnone & Hreg & [s Hc] & Hp)].
    + destruct (loadInitialState_agree env id st1 st Hc) as [Hm [d [Hd Hd']]].
      fold st1 st2 in Hm, Hd, Hd'. split; [exact Hm |]. lia.
    + subst st2. rewrite loadInitialState_loaded; [split; reflexivity |].
      rewrite Hc, lookup_insert_eq. eauto.
  - (* at most one event, whatever is answered to the second call *)
    pose proof (loadInitialState_cases env' id st1) as H2. fold st2' in H2.
    destruct H1 as [[Hc Hp] | (Hnone & Hreg & [s Hc] & Hp)].
    + destruct H2 as [[_ Hp2] | (_ & _ & _ & Hp2)]; lia.
    + destruct H2 as [[_ Hp2] | (Hnone2 & _)]; [lia |].
      rewrite Hc, lookup_insert_eq in Hnone2. discriminate.
  - (* one entry more *)
    intros Hnone Hsome. subst st2'.
    rewrite (loadInitialState_loaded env' id st1 Hsome). simpl.
    destruct H1 as [[Hc Hp] | (_ & Hreg & [s Hc] & Hp)].
    + rewrite Hc, Hnone in Hsome. destruct Hsome as [? ?]. discriminate.
    + rewrite Hc. split; [apply map_size_insert_None, Hnone | apply dom_insert_L].
  - apply loadInitialState_unregistered.
Qed.

End Loading.

Lemma loadInitialState_idempotent_witness :
  size (currentState
          (snd (loadInitialState Fixtures.config Fixtures.env "p"
             (snd (loadInitialState Fixtures.config Fixtures.env "p"
                NewHermesPromiseSettler))))) = 1%nat.
Proof.
  apply (loadInitialState_idempotent Fixtures.config Fixtures.env Fixtures.env "p"); vm_compute; eauto.
Defined.

(* ===================================================================== *)
(** ** One settlement *)
(* ===================================================================== *)

Example hexDecodeString_ok : hexDecodeString "0aFf" = inl [x0a; xff].
Proof. reflexivity. Qed.

Example hexDecodeString_odd : hexDecodeString "0aF" = inr ErrHexLength.
Proof. reflexivity. Qed.

Example hexDecodeString_invalid : hexDecodeString "0g" = inr (ErrHexInvalidByte "g").
Proof. reflexivity. Qed.

Section OneSettlement.

Variable cfg : HermesPromiseSettlerConfig.

Lemma isSettling_logCall (c : call) (st : settler) (id : Identity) :
  isSettling (logCall c st) id = isSettling st id.
Proof. reflexivity. Qed.

Lemma lookupState_logCall (c : call) (st : settler) (id : Identity) :
  lookupState (logCall c st) id = lookupState st id.
Proof. reflexivity. Qed.

Lemma isSettling_lookupState (st : settler) (id : Identity) :
  isSettling st id = settleInProgress (lookupState st id).
Proof. unfold isSettling, lookupState. destruct (currentState st !! id); reflexivity. Qed.

Lemma lookupState_setSettling (st : settler) (id : Identity) (b : bool) :
  lookupState (setSettling id b st) id = withSettling (lookupState st id) b.
Proof.
  unfold setSettling, setState, lookupState at 1. simpl.
  rewrite lookup_insert_eq. reflexivity.
Qed.

Lemma currentState_setSettling_ne (st : settler) (id id' : Identity) (b : bool) :
  id' <> id -> currentState (setSettling id b st) !! id' = currentState st !! id'.
Proof. intros Hne. unfold setSettling, setState. simpl. apply lookup_insert_ne. congruence. Qed.

Lemma isSettling_setSettling (st : settler) (id : Identity) (b : bool) :
  isSettling (setSettling id b st) id = b.
Proof. rewrite isSettling_lookupState, lookupState_setSettling. reflexivity. Qed.

Lemma withSettling_idem (s : settlementState) (b : bool) :
  settleInProgress s = b -> withSettling s b = s.
Proof. intros <-. destruct s; reflexivity. Qed.

Lemma withSettling_twice (s : settlementState) (b b' : bool) :
  withSettling (withSettling s b) b' = withSettling s b'.
Proof. reflexivity. Qed.

Lemma loadAndEnter_found (env : Collaborators) (id : Identity) (b : option Address)
    (hermesID : Address) (st : settler) (hp : HermesPromise) (hexR : list byte) :
  PromiseGet env id hermesID = (hp, None) ->
  hexDecodeString (hpR hp) = inl hexR ->
  loadAndEnter env id b hermesID st
    = (enterSettle {| provider := id; promise := withR (hpPromise hp) hexR |} b,
       logCall (CPromiseGet id hermesID) st).
Proof. intros Hget Hdec. unfold loadAndEnter. rewrite Hget, Hdec. reflexivity. Qed.

(** C4. When a settlement is submitted and the confirmation does not
    arrive before the waiter times out, the caller of [ForceSettle]
    receives [ErrSettleTimeout]; once the waiter has run its deferred calls
    the provider is not settling any more, its state and the states of the
    other identities are what they were, and a further [ForceSettle] for
    the provider passes the in-progress check. *)
Theorem forceSettle_timeout (env : Collaborators) (id : Identity) (hermesID : Address)
    (st : settler) (hp : HermesPromise) (hexR : list byte) :
  PromiseGet env id hermesID = (hp, None) ->
  hexDecodeString (hpR hp) = inl hexR ->
  isSettling st id = false ->
  SubscribeToPromiseSettledEvent env id (HermesAddress cfg) = None ->
  SettleAndRebalance env (HermesAddress cfg) id (withR (hpPromise hp) hexR) = None ->
  exists (p' : settleProc) (st' : settler),
    procRun cfg env timeoutSchedule (ForceSettle env id hermesID st) = Some (p', st') /\
    caller p' = Returned (Some ErrSettleTimeout) /\
    waiter p' = Finished /\
    isSettling st' id = false /\
    lookupState st' id = lookupState st id /\
    (forall id', id' <> id -> currentState st' !! id' = currentState st !! id') /\
    settleQueue st' = settleQueue st /\
    exists (p2 : settleProc) (st2 : settler),
      procRun cfg env [ACaller] (ForceSettle env id hermesID st') = Some (p2, st2) /\
      caller p2 = AtMark.
Proof.
  intros Hget Hdec Hfree Hsub Htx.
  unfold ForceSettle. rewrite !(loadAndEnter_found env id None hermesID _ hp hexR Hget Hdec).
  unfold timeoutSchedule, procRun, procStep, callerStep, waiterStep, settleFunc.
  cbn -[isSettling setSettling logCall lookupState].
  rewrite isSettling_logCall, Hfree.
  cbn -[isSettling setSettling logCall lookupState]. rewrite Hsub.
  cbn -[isSettling setSettling logCall lookupState]. rewrite Htx.
  cbn -[isSettling setSettling logCall lookupState].
  eexists. eexists. split; [reflexivity |].
  cbn -[isSettling setSettling logCall lookupState].
  split; [reflexivity |]. split; [reflexivity |].
  assert (Hs : settleInProgress (lookupState st id) = false)
    by (rewrite <- isSettling_lookupState; exact Hfree).
  assert (Hl : lookupState
                 (setSettling id false
                    (logCall (CSettleAndRebalance (HermesAddress cfg) id (withR (hpPromise hp) hexR))
                       (logCall (CSubscribe id (HermesAddress cfg))
                          (setSettling id true (logCall (CPromiseGet id hermesID) st))))) id
               = lookupState st id).
  { rewrite lookupState_setSettling, !lookupState_logCall, lookupState_setSettling,
      lookupState_logCall, withSettling_twice. apply withSettling_idem, Hs. }
  split; [| split; [| split; [| split]]].
  - rewrite isSettling_logCall, isSettling_setSettling. reflexivity.
  - rewrite lookupState_logCall. exact Hl.
  - intros id' Hne. cbn -[setSettling].
    rewrite (currentState_setSettling_ne _ id id' false Hne). cbn -[setSettling].
    rewrite (currentState_setSettling_ne _ id id' true Hne). reflexivity.
  - reflexivity.
  - rewrite (loadAndEnter_found env id None hermesID _ hp hexR Hget Hdec).
    cbn -[isSettling setSettling logCall lookupState].
    rewrite !isSettling_logCall, isSettling_setSettling.
    eexists. eexists. split; reflexivity.
Qed.

(** [resyncState] first reads the channel; whatever it calls after that is
    a read or the start of a publication. *)
Lemma resyncState_calls (env : Collaborators) (id : Identity) (st : settler) :
  exists new : list call,
    calls (snd (resyncState cfg env id st))
      = calls st ++ CGetProviderChannel (HermesAddress cfg) id true :: new /\
    Forall (fun c => isResyncCall c = true) new.
Proof.
  unfold resyncState, resyncStore.
  destruct (GetProviderChannel env (HermesAddress cfg) id true) as [ch [e |]];
    [| destruct (PromiseGet env id (HermesAddress cfg)) as [hp [e |]];
       [destruct (isErrNotFound e) |]];
    simpl; rewrite <- ?app_assoc; simpl;
    eexists; (split; [reflexivity |]); repeat constructor.
Qed.

(** C5. When the settled event [info] is delivered to a waiting settlement,
    the waiter stores one history entry, made of the transaction hash of
    the event, the promise that was submitted, and the amount and the
    total of the event, and then resynchronises the state of the
    provider: the call of the history storage is followed by the calls of
    [resyncState] and by no other call of the storage. What the storage
    answers does not matter: if it fails the resynchronisation still runs,
    and the caller of [settle] that waits for the outcome receives no
    error. *)
Theorem settlement_confirmed (env : Collaborators) (p : settleProc) (st : settler)
    (info : PromiseSettled) :
  waiter p = Selecting ->
  let id := provider (rp p) in
  let she := historyEntry p info in
  let st1 := logCall (CStore id (HermesAddress cfg) she) st in
  (TxHash she = RawTxHash info /\
   EntryPromise she = promise (rp p) /\
   EntryAmount she = SettledAmount info /\
   TotalSettled she = SettledTotal info) /\
  waiterStep cfg env (WSink (Some info)) p st
    = Some (setWaiter p Closing, snd (resyncState cfg env id st1)) /\
  (exists new : list call,
     calls (snd (resyncState cfg env id st1))
       = calls st ++ CStore id (HermesAddress cfg) she
                  :: CGetProviderChannel (HermesAddress cfg) id true :: new /\
     Forall (fun c => isStore c = false) new) /\
  (caller p = AtAwait ->
   exists (p' : settleProc) (st' : settler),
     procRun cfg env [AWaiter (WSink (Some info)); AWaiter (WSink (Some info)); ACaller]
       (p, st) = Some (p', st') /\
     caller p' = Returned None /\
     st' = snd (resyncState cfg env id st1)).
Proof.
  intros Hw id she st1.
  assert (Hstep : waiterStep cfg env (WSink (Some info)) p st
                  = Some (setWaiter p Closing, snd (resyncState cfg env id st1))).
  { unfold waiterStep. rewrite Hw. fold id. fold she.
    destruct (Store env id (HermesAddress cfg) she); reflexivity. }
  split; [repeat split |]. split; [exact Hstep |]. split.
  - destruct (resyncState_calls env id st1) as [new [Hcalls Hnew]].
    exists new. split.
    + rewrite Hcalls. unfold st1. simpl. rewrite <- app_assoc. reflexivity.
    + eapply Forall_impl; [exact Hnew |]. intros c Hc. destruct c; simpl in *; congruence.
  - intros Hc. unfold procRun, procStep. cbn [fst snd]. rewrite Hstep.
    cbn [fst snd]. unfold waiterStep at 1. cbn [waiter setWaiter].
    cbn [fst snd]. unfold callerStep. cbn [caller closeErrCh setWaiter waiter errChClosed].
    rewrite Hc. eexists. eexists. split; [reflexivity |]. split; reflexivity.
Qed.

Lemma resyncState_routed (b : option Address) (env : Collaborators) (id : Identity)
    (st : settler) :
  exists new : list call,
    calls (snd (resyncState cfg env id st)) = calls st ++ new /\
    Forall (routedFor b) new.
Proof.
  destruct (resyncState_calls env id st) as [new [Hcalls Hnew]].
  exists (CGetProviderChannel (HermesAddress cfg) id true :: new).
  split; [exact Hcalls |]. constructor; [exact I |].
  eapply Forall_impl; [exact Hnew |]. intros c Hc. destruct c; simpl in *; try exact I; discriminate.
Qed.

(** A step of a settlement keeps its beneficiary and makes only calls of
    its variant. *)
Lemma procStep_routed (env : Collaborators) (a : action) (p p' : settleProc)
    (st st' : settler) :
  procStep cfg env a (p, st) = Some (p', st') ->
  beneficiary p' = beneficiary p /\
  exists new : list call,
    calls st' = calls st ++ new /\ Forall (routedFor (beneficiary p)) new.
Proof.
  destruct a as [| o]; cbn [procStep fst snd].
  - unfold callerStep. destruct (caller p) eqn:Hc.
    + destruct (isSettling st (provider (rp p))); intros [= <- <-];
        (split; [reflexivity |]); (exists []; split; [rewrite app_nil_r; reflexivity | constructor]).
    + intros [= <- <-]. split; [reflexivity |]. exists []. split; [rewrite app_nil_r; reflexivity | constructor].
    + destruct (SubscribeToPromiseSettledEvent env _ _); intros [= <- <-];
        (split; [reflexivity |]); simpl; rewrite <- ?app_assoc;
        eexists; (split; [reflexivity |]); repeat constructor.
    + destruct (settleFunc cfg env p); intros [= <- <-];
        (split; [reflexivity |]); simpl; rewrite <- ?app_assoc;
        eexists; (split; [reflexivity |]); repeat constructor;
        unfold settleFuncCall; destruct (beneficiary p); reflexivity.
    + destruct (waiter p); try (destruct (errChClosed p)); try discriminate;
        intros [= <- <-]; (split; [reflexivity |]); (exists []; split; [rewrite app_nil_r; reflexivity | constructor]).
    + discriminate.
  - unfold waiterStep. destruct (waiter p) eqn:Hw; try discriminate.
    + destruct o as [| [info |] |].
      * destruct (stopClosed st); [| discriminate].
        intros [= <- <-]. split; [reflexivity |]. exists []. split; [rewrite app_nil_r; reflexivity | constructor].
      * intros [= <- <-]. split; [reflexivity |].
        assert (Hst : (match Store env (provider (rp p)) (HermesAddress cfg) (historyEntry p info) with
                       | Some _ | None =>
                           logCall (CStore (provider (rp p)) (HermesAddress cfg) (historyEntry p info)) st
                       end)
                      = logCall (CStore (provider (rp p)) (HermesAddress cfg) (historyEntry p info)) st)
          by (destruct (Store env _ _ _); reflexivity).
        rewrite Hst.
        destruct (resyncState_routed (beneficiary p) env (provider (rp p))
                    (logCall (CStore (provider (rp p)) (HermesAddress cfg) (historyEntry p info)) st))
          as [new [Hcalls Hnew]].
        exists (CStore (provider (rp p)) (HermesAddress cfg) (historyEntry p info) :: new).
        split.
        -- rewrite Hcalls. simpl. rewrite <- app_assoc. reflexivity.
        -- constructor; [| exact Hnew]. simpl. destruct (beneficiary p); reflexivity.
      * intros [= <- <-]. split; [reflexivity |]. exists []. split; [rewrite app_nil_r; reflexivity | constructor].
      * intros [= <- <-]. split; [reflexivity |]. exists []. split; [rewrite app_nil_r; reflexivity | constructor].
    + intros [= <- <-]. split; [reflexivity |]. exists []. split; [rewrite app_nil_r; reflexivity | constructor].
    + intros [= <- <-]. split; [reflexivity |].
      eexists. split; [reflexivity |]. repeat constructor.
Qed.

Lemma procRun_routed (env : Collaborators) (acts : list action) :
  forall (p p' : settleProc) (st st' : settler),
    procRun cfg env acts (p, st) = Some (p', st') ->
    exists new : list call,
      calls st' = calls st ++ new /\ Forall (routedFor (beneficiary p)) new.
Proof.
  induction acts as [| a rest IH]; intros p p' st st'; simpl.
  - intros [= <- <-]. exists []. rewrite app_nil_r. split; [reflexivity | constructor].
  - destruct (procStep cfg env a (p, st)) as [[p1 st1] |] eqn:Hstep; [| discriminate].
    intros Hrun.
    destruct (procStep_routed env a p p1 st st1 Hstep) as [Hb [new1 [Hc1 Hn1]]].
    destruct (IH p1 p' st1 st' Hrun) as [new2 [Hc2 Hn2]].
    exists (new1 ++ new2). split.
    + rewrite Hc2, Hc1, <- app_assoc. reflexivity.
    + apply Forall_app. split; [exact Hn1 |]. rewrite <- Hb. exact Hn2.
Qed.

Lemma loadAndEnter_routed (env : Collaborators) (id : Identity) (b : option Address)
    (hermesID : Address) (st : settler) :
  beneficiary (fst (loadAndEnter env id b hermesID st)) = b /\
  calls (snd (loadAndEnter env id b hermesID st)) = calls st ++ [CPromiseGet id hermesID].
Proof.
  unfold loadAndEnter.
  destruct (PromiseGet env id hermesID) as [hp [e |]];
    [destruct (isErrNotFound e) | destruct (hexDecodeString (hpR hp))];
    split; reflexivity.
Qed.

(** Whatever the schedule, a settlement entered with beneficiary [b] makes
    only calls of its variant. *)
Lemma settle_routed (env : Collaborators) (id : Identity) (b : option Address)
    (hermesID : Address) (st : settler) (acts : list action)
    (p' : settleProc) (st' : settler) :
  procRun cfg env acts (loadAndEnter env id b hermesID st) = Some (p', st') ->
  exists new : list call,
    calls st' = calls st ++ new /\ Forall (routedFor b) new.
Proof.
  destruct (loadAndEnter_routed env id b hermesID st) as [Hb Hc].
  destruct (loadAndEnter env id b hermesID st) as [p0 st0]. simpl in Hb, Hc.
  intros Hrun. destruct (procRun_routed env acts p0 p' st0 st' Hrun) as [new [Hc' Hn]].
  exists (CPromiseGet id hermesID :: new). split.
  - rewrite Hc', Hc, <- app_assoc. reflexivity.
  - constructor; [exact I |]. rewrite <- Hb. exact Hn.
Qed.

(** The run of a settlement that is submitted and confirmed. *)
Lemma settle_confirmed_run (env : Collaborators) (id : Identity) (b : option Address)
    (hermesID : Address) (st : settler) (hp : HermesPromise) (hexR : list byte)
    (info : PromiseSettled) :
  PromiseGet env id hermesID = (hp, None) ->
  hexDecodeString (hpR hp) = inl hexR ->
  isSettling st id = false ->
  SubscribeToPromiseSettledEvent env id (HermesAddress cfg) = None ->
  let p0 := enterSettle {| provider := id; promise := withR (hpPromise hp) hexR |} b in
  settleFunc cfg env p0 = None ->
  exists (p' : settleProc) (st' : settler) (rest : list call),
    procRun cfg env (confirmedSchedule info) (loadAndEnter env id b hermesID st)
      = Some (p', st') /\
    caller p' = Returned None /\
    calls st' = calls st ++ [CPromiseGet id hermesID; CSubscribe id (HermesAddress cfg);
                             settleFuncCall cfg p0;
                             CStore id (HermesAddress cfg) (historyEntry p0 info)] ++ rest /\
    Forall (fun c => isTransactorCall c = false /\ isStore c = false) rest.
Proof.
  intros Hget Hdec Hfree Hsub p0 Htx.
  rewrite (loadAndEnter_found env id b hermesID _ hp hexR Hget Hdec).
  subst p0. unfold settleFunc in Htx.
  unfold confirmedSchedule, procRun, procStep, callerStep, waiterStep, settleFunc.
  cbn -[isSettling setSettling logCall lookupState resyncState] in Htx |- *.
  rewrite isSettling_logCall, Hfree.
  cbn -[isSettling setSettling logCall lookupState resyncState].
  rewrite Hsub.
  cbn -[isSettling setSettling logCall lookupState resyncState].
  rewrite Htx.
  cbn -[isSettling setSettling logCall lookupState resyncState].
  destruct (Store env id (HermesAddress cfg) _);
    cbn -[isSettling setSettling logCall lookupState resyncState];
    match goal with
    | |- context [resyncState cfg env id ?s] =>
        destruct (resyncState_calls env id s) as [new [Hcalls Hnew]]
    end;
    eexists; eexists; exists (CGetProviderChannel (HermesAddress cfg) id true
                                :: new ++ [CCancel id (HermesAddress cfg)]);
    (split; [reflexivity |]); (split; [reflexivity |]);
    (split;
     [ cbn -[resyncState]; rewrite Hcalls; cbn; rewrite <- !app_assoc; reflexivity
     | constructor; [split; reflexivity |];
       apply Forall_app; split;
       [ eapply Forall_impl; [exact Hnew |];
         intros c Hc; destruct c; simpl in *; split; congruence
       | repeat constructor ] ]).
Qed.


(** C7. [SettleWithBeneficiary] for a provider, a beneficiary [B] and a
    hermes submits through the transactor call [SettleWithBeneficiary] and
    never through [SettleAndRebalance], and every history entry it stores
    carries [B]; [ForceSettle] and a settlement started from the queue
    submit through [SettleAndRebalance], never through
    [SettleWithBeneficiary], and their entries carry no beneficiary (the
    zero address). This holds on every schedule. On the schedule of a
    settlement that is submitted and confirmed, the calls are the read of
    the promise, the subscription, the transactor call of the variant with
    the decoded promise, and the storage of the entry. *)
Theorem beneficiary_routing (env : Collaborators) (id : Identity) (B hermesID : Address)
    (st : settler) :
  (forall (acts : list action) (p' : settleProc) (st' : settler),
     procRun cfg env acts (SettleWithBeneficiary env id B hermesID st) = Some (p', st') ->
     exists new : list call,
       calls st' = calls st ++ new /\ Forall (routedFor (Some B)) new) /\
  (forall (acts : list action) (p' : settleProc) (st' : settler),
     procRun cfg env acts (ForceSettle env id hermesID st) = Some (p', st') ->
     exists new : list call,
       calls st' = calls st ++ new /\ Forall (routedFor None) new) /\
  (forall (r : receivedPromise) (acts : list action) (p' : settleProc) (st' : settler),
     procRun cfg env acts (enterSettle r None, st) = Some (p', st') ->
     exists new : list call,
       calls st' = calls st ++ new /\ Forall (routedFor None) new) /\
  (forall (hp : HermesPromise) (hexR : list byte) (info : PromiseSettled),
     PromiseGet env id hermesID = (hp, None) ->
     hexDecodeString (hpR hp) = inl hexR ->
     isSettling st id = false ->
     SubscribeToPromiseSettledEvent env id (HermesAddress cfg) = None ->
     let pr := withR (hpPromise hp) hexR in
     (SettleWithBeneficiary_tx env id B (HermesAddress cfg) pr = None ->
      exists (p' : settleProc) (st' : settler) (rest : list call),
        procRun cfg env (confirmedSchedule info)
          (SettleWithBeneficiary env id B hermesID st) = Some (p', st') /\
        caller p' = Returned None /\
        calls st' = calls st ++
          [CPromiseGet id hermesID; CSubscribe id (HermesAddress cfg);
           CSettleWithBeneficiary id B (HermesAddress cfg) pr;
           CStore id (HermesAddress cfg)
             {| TxHash := RawTxHash info; EntryPromise := pr; EntryBeneficiary := B;
                EntryAmount := SettledAmount info; TotalSettled := SettledTotal info |}]
          ++ rest /\
        Forall (fun c => isTransactorCall c = false /\ isStore c = false) rest) /\
     (SettleAndRebalance env (HermesAddress cfg) id pr = None ->
      exists (p' : settleProc) (st' : settler) (rest : list call),
        procRun cfg env (confirmedSchedule info)
          (ForceSettle env id hermesID st) = Some (p', st') /\
        caller p' = Returned None /\
        calls st' = calls st ++
          [CPromiseGet id hermesID; CSubscribe id (HermesAddress cfg);
           CSettleAndRebalance (HermesAddress cfg) id pr;
           CStore id (HermesAddress cfg)
             {| TxHash := RawTxHash info; EntryPromise := pr;
                EntryBeneficiary := zeroAddress;
                EntryAmount := SettledAmount info; TotalSettled := SettledTotal info |}]
          ++ rest /\
        Forall (fun c => isTransactorCall c = false /\ isStore c = false) rest)).
Proof.
  split; [| split; [| split]].
  - intros acts p' st'. apply settle_routed.
  - intros acts p' st'. apply settle_routed.
  - intros r acts p' st' Hrun. exact (procRun_routed env acts _ p' st st' Hrun).
  - intros hp hexR info Hget Hdec Hfree Hsub pr. split; intros Htx.
    + exact (settle_confirmed_run env id (Some B) hermesID st hp hexR info
               Hget Hdec Hfree Hsub Htx).
    + exact (settle_confirmed_run env id None hermesID st hp hexR info
               Hget Hdec Hfree Hsub Htx).
Qed.

End OneSettlement.

Lemma forceSettle_timeout_witness :
  exists (p' : settleProc) (st' : settler),
    procRun Fixtures.config Fixtures.env timeoutSchedule
      (ForceSettle Fixtures.env "p" Fixtures.hermes
         (Fixtures.holding (stateOf 100 0 60 false true))) = Some (p', st') /\
    caller p' = Returned (Some ErrSettleTimeout) /\
    isSettling st' "p" = false.
Proof.
  destruct (forceSettle_timeout Fixtures.config Fixtures.env "p" Fixtures.hermes
              (Fixtures.holding (stateOf 100 0 60 false true))
              (Fixtures.stored 60) [x0a; xff])
    as (p' & st' & Hrun & Hret & _ & Hfree & _);
    try (vm_compute; reflexivity).
  exists p', st'. repeat split; assumption.
Defined.

(** The waiting settlement of the examples: a promise of 60 was submitted
    for ["p"], without beneficiary. *)
Lemma settlement_confirmed_witness :
  exists (p' : settleProc) (st' : settler),
    procRun Fixtures.config Fixtures.env
      [AWaiter (WSink (Some Fixtures.settled)); AWaiter (WSink (Some Fixtures.settled)); ACaller]
      (setWaiter (setCaller (enterSettle {| provider := "p"; promise := Fixtures.promiseOf 60 |} None)
                    AtAwait) Selecting,
       Fixtures.holding (stateOf 100 0 60 true true)) = Some (p', st') /\
    caller p' = Returned None.
Proof.
  destruct (settlement_confirmed Fixtures.config Fixtures.env
              (setWaiter (setCaller (enterSettle {| provider := "p"; promise := Fixtures.promiseOf 60 |} None)
                    AtAwait) Selecting)
              (Fixtures.holding (stateOf 100 0 60 true true)) Fixtures.settled)
    as (_ & _ & _ & Hrun); [reflexivity |].
  destruct Hrun as (p' & st' & Hrun & Hret & _); [reflexivity |].
  exists p', st'. split; assumption.
Defined.

Lemma beneficiary_routing_witness :
  exists (p' : settleProc) (st' : settler) (rest : list call),
    procRun Fixtures.config Fixtures.env (confirmedSchedule Fixtures.settled)
      (SettleWithBeneficiary Fixtures.env "p" 5%N Fixtures.hermes
         (Fixtures.holding (stateOf 100 0 60 false true))) = Some (p', st') /\
    caller p' = Returned None /\
    calls st' =
      [CPromiseGet "p" Fixtures.hermes; CSubscribe "p" Fixtures.hermes;
       CSettleWithBeneficiary "p" 5%N Fixtures.hermes
         (withR (Fixtures.promiseOf 60) [x0a; xff]);
       CStore "p" Fixtures.hermes
         {| TxHash := 99%N; EntryPromise := withR (Fixtures.promiseOf 60) [x0a; xff];
            EntryBeneficiary := 5%N; EntryAmount := Some 60; TotalSettled := Some 60 |}]
      ++ rest.
Proof.
  destruct (beneficiary_routing Fixtures.config Fixtures.env "p" 5%N Fixtures.hermes
              (Fixtures.holding (stateOf 100 0 60 false true)))
    as (_ & _ & _ & Hrun).
  destruct (Hrun (Fixtures.stored 60) [x0a; xff] Fixtures.settled) as [Hb _];
    try (vm_compute; reflexivity).
  destruct Hb as (p' & st' & rest & H1 & H2 & H3 & _); [vm_compute; reflexivity |].
  exists p', st', rest. repeat split; assumption.
Defined.

(* ===================================================================== *)
(** ** The entries of the map *)
(* ===================================================================== *)

Section Entries.

Variable cfg : HermesPromiseSettlerConfig.

Lemma mapWrite_keeps (m m' : gmap string settlementState) (id id' : Identity) :
  mapWrite m id m' -> is_Some (m !! id') -> is_Some (m' !! id').
Proof.
  intros [| s] Hsome; [exact Hsome |].
  destruct (decide (id = id')) as [-> | Hne].
  - rewrite lookup_insert_eq. eauto.
  - rewrite lookup_insert_ne; assumption.
Qed.

Lemma mapWrite_new (m m' : gmap string settlementState) (id id' : Identity) :
  mapWrite m id m' -> m !! id' = None -> is_Some (m' !! id') ->
  id' = id /\ m !! id = None.
Proof.
  intros [| s] Hnone [x Hx]; [congruence |].
  destruct (decide (id = id')) as [-> | Hne]; [split; [reflexivity | exact Hnone] |].
  rewrite lookup_insert_ne in Hx; congruence.
Qed.

Lemma resyncState_mapWrite (env : Collaborators) (id : Identity) (st : settler) :
  mapWrite (currentState st) id (currentState (snd (resyncState cfg env id st))).
Proof.
  pose proof (resyncState_resynced cfg env id st) as Hr.
  inversion Hr as [e st' Hc _ _ Heq | s st' _ _ Hc _ _ Heq]; simpl; rewrite Hc; constructor.
Qed.

Lemma loadInitialState_mapWrite (env : Collaborators) (id : Identity) (st : settler) :
  mapWrite (currentState st) id (currentState (snd (loadInitialState cfg env id st))).
Proof.
  destruct (loadInitialState_cases cfg env id st) as [[Hc _] | (_ & _ & [s Hc] & _)];
    rewrite Hc; constructor.
Qed.

(** A promise event writes only an entry that exists. *)
Lemma handleHermesPromiseReceived_mapWrite (env : Collaborators)
    (apep : AppEventHermesPromise) (st : settler) :
  mapWrite (currentState st) (ProviderID apep)
    (currentState (handleHermesPromiseReceived cfg env apep st)) /\
  (currentState st !! ProviderID apep = None ->
   currentState (handleHermesPromiseReceived cfg env apep st) = currentState st).
Proof.
  unfold handleHermesPromiseReceived.
  destruct (currentState st !! ProviderID apep) as [s |] eqn:Hs;
    [| split; [constructor | reflexivity]].
  split; [| discriminate].
  destruct (registered s); simpl; [| constructor].
  destruct (needsSettling _ _); [rewrite initiateSettling_currentState |];
    simpl; constructor.
Qed.

Lemma loadAndEnter_fresh (env : Collaborators) (id : Identity) (b : option Address)
    (hermesID : Address) (st : settler) :
  currentState (snd (loadAndEnter env id b hermesID st)) = currentState st /\
  marked (fst (loadAndEnter env id b hermesID st)) = false.
Proof.
  unfold loadAndEnter.
  destruct (PromiseGet env id hermesID) as [hp [e |]];
    [destruct (isErrNotFound e) | destruct (hexDecodeString (hpR hp))];
    split; reflexivity.
Qed.

Lemma setSettling_is_Some (id : Identity) (b : bool) (st : settler) :
  is_Some (currentState (setSettling id b st) !! id).
Proof. unfold setSettling, setState. simpl. rewrite lookup_insert_eq. eauto. Qed.

Lemma setSettling_mapWrite (id : Identity) (b : bool) (st : settler) :
  mapWrite (currentState st) id (currentState (setSettling id b st)).
Proof. unfold setSettling, setState. simpl. constructor. Qed.

Lemma marked_caller (p : settleProc) :
  match caller p with AtSubscribe | AtSubmit | AtAwait => True | _ => False end ->
  marked p = true.
Proof. unfold marked. destruct (caller p); simpl; intros H; try contradiction; reflexivity. Qed.

Lemma marked_waiter (p : settleProc) : waiter p <> NotSpawned -> marked p = true.
Proof.
  unfold marked. intros H. destruct (waiter p); try contradiction;
    try congruence; apply orb_true_r.
Qed.

(** A step of the calling goroutine writes the entry of its provider at
    most; the entry is new only at [setSettling(true)]. *)
Lemma callerStep_mapWrite (env : Collaborators) (p p' : settleProc) (st st' : settler) :
  callerStep cfg env p st = Some (p', st') ->
  (marked p = true -> is_Some (currentState st !! provider (rp p))) ->
  rp p' = rp p /\
  mapWrite (currentState st) (provider (rp p)) (currentState st') /\
  (marked p' = true -> is_Some (currentState st' !! provider (rp p))) /\
  (currentState st !! provider (rp p) = None ->
   is_Some (currentState st' !! provider (rp p)) -> caller p = AtMark).
Proof.
  unfold callerStep. intros Hstep Hm.
  destruct (caller p) eqn:Hc.
  - (* the check *)
    assert (Hsame : forall c, marked (setCaller p c) = true ->
                    match c with AtSubscribe | AtSubmit | AtAwait => False | _ => True end ->
                    marked p = true).
    { intros c. unfold marked. simpl. rewrite Hc. destruct c; simpl; tauto. }
    destruct (isSettling st (provider (rp p))); injection Hstep as <- <-;
      (split; [reflexivity |]); (split; [constructor |]);
      (split; [intros Hm'; apply Hm; eapply Hsame; [exact Hm' | exact I] |]);
      intros Hnone [x Hx]; congruence.
  - (* the mark *)
    injection Hstep as <- <-. split; [reflexivity |].
    split; [apply setSettling_mapWrite |].
    split; [intros _; apply setSettling_is_Some | reflexivity].
  - (* the subscription *)
    assert (Hin : is_Some (currentState st !! provider (rp p)))
      by (apply Hm, marked_caller; rewrite Hc; exact I).
    destruct (SubscribeToPromiseSettledEvent env _ _); injection Hstep as <- <-;
      (split; [reflexivity |]).
    + split; [apply (setSettling_mapWrite _ false (logCall _ st)) |].
      split; [intros _; apply setSettling_is_Some |].
      intros Hnone _. destruct Hin as [x Hx]. congruence.
    + split; [constructor |]. split; [intros _; exact Hin |].
      intros Hnone _. destruct Hin as [x Hx]. congruence.
  - (* the submission *)
    assert (Hin : is_Some (currentState st !! provider (rp p)))
      by (apply Hm, marked_caller; rewrite Hc; exact I).
    destruct (settleFunc cfg env p); injection Hstep as <- <-;
      (split; [reflexivity |]); (split; [constructor |]);
      (split; [intros _; exact Hin |]);
      intros Hnone _; destruct Hin as [x Hx]; congruence.
  - (* the wait *)
    assert (Hin : is_Some (currentState st !! provider (rp p)))
      by (apply Hm, marked_caller; rewrite Hc; exact I).
    destruct (waiter p); try (destruct (errChClosed p)); try discriminate;
      injection Hstep as <- <-;
      (split; [reflexivity |]); (split; [constructor |]);
      (split; [intros _; exact Hin |]);
      intros Hnone _; destruct Hin as [x Hx]; congruence.
  - discriminate.
Qed.

(** A step of the waiter writes an entry that exists. *)
Lemma waiterStep_mapWrite (env : Collaborators) (o : waitOutcome) (p p' : settleProc)
    (st st' : settler) :
  waiterStep cfg env o p st = Some (p', st') ->
  (marked p = true -> is_Some (currentState st !! provider (rp p))) ->
  rp p' = rp p /\
  mapWrite (currentState st) (provider (rp p)) (currentState st') /\
  is_Some (currentState st !! provider (rp p)) /\
  is_Some (currentState st' !! provider (rp p)).
Proof.
  unfold waiterStep. intros Hstep Hm.
  assert (Hgen : waiter p <> NotSpawned ->
                 rp p' = rp p ->
                 mapWrite (currentState st) (provider (rp p)) (currentState st') ->
                 rp p' = rp p /\
                 mapWrite (currentState st) (provider (rp p)) (currentState st') /\
                 is_Some (currentState st !! provider (rp p)) /\
                 is_Some (currentState st' !! provider (rp p))).
  { intros Hw Hrp Hmw. pose proof (Hm (marked_waiter p Hw)) as Hin.
    repeat split; try assumption. eapply mapWrite_keeps; eassumption. }
  destruct (waiter p) eqn:Hw; try discriminate.
  - destruct o as [| [info |] |].
    + destruct (stopClosed st); [| discriminate]. injection Hstep as <- <-.
      apply Hgen; [discriminate | reflexivity | constructor].
    + injection Hstep as <- <-.
      apply Hgen; [discriminate | reflexivity |].
      destruct (Store env _ _ _);
        apply (resyncState_mapWrite env (provider (rp p)) (logCall _ st)).
    + injection Hstep as <- <-. apply Hgen; [discriminate | reflexivity | constructor].
    + injection Hstep as <- <-. apply Hgen; [discriminate | reflexivity | constructor].
  - injection Hstep as <- <-. apply Hgen; [discriminate | reflexivity | constructor].
  - injection Hstep as <- <-. apply Hgen; [discriminate | reflexivity |].
    apply (setSettling_mapWrite _ false st).
Qed.

Lemma markedHaveEntries_keeps (sys : system) (st' : settler) (ps : list settleProc) :
  markedHaveEntries sys ->
  (forall id, is_Some (currentState (core sys) !! id) -> is_Some (currentState st' !! id)) ->
  Forall (fun p => marked p = true -> is_Some (currentState st' !! provider (rp p))) ps ->
  markedHaveEntries {| core := st'; procs := procs sys ++ ps |}.
Proof.
  unfold markedHaveEntries. simpl. intros Hinv Hkeep Hps.
  apply Forall_app. split; [| exact Hps].
  eapply Forall_impl; [exact Hinv |]. intros p Hp Hm. apply Hkeep, Hp, Hm.
Qed.

Lemma markedHaveEntries_withCore (sys : system) (st' : settler) :
  markedHaveEntries sys ->
  (forall id, is_Some (currentState (core sys) !! id) -> is_Some (currentState st' !! id)) ->
  markedHaveEntries (withCore sys st').
Proof.
  intros Hinv Hkeep.
  pose proof (markedHaveEntries_keeps sys st' [] Hinv Hkeep (Forall_nil_2 _)) as H.
  unfold markedHaveEntries in *. simpl in *. rewrite app_nil_r in H. exact H.
Qed.

(** One step of the system: the settlements that have marked their provider
    still find its entry, no entry disappears, and an entry appears only
    for the identity of a step that creates entries. *)
Lemma step_entries (env : Collaborators) (l : label) (sys sys' : system) :
  markedHaveEntries sys ->
  step cfg env l sys = Some sys' ->
  markedHaveEntries sys' /\
  (forall id, is_Some (currentState (core sys) !! id) ->
              is_Some (currentState (core sys') !! id)) /\
  (forall id, currentState (core sys) !! id = None ->
              is_Some (currentState (core sys') !! id) ->
              createsEntry l sys id).
Proof.
  intros Hinv Hstep.
  assert (Hsame : forall st' : settler,
             currentState st' = currentState (core sys) ->
             sys' = withCore sys st' ->
             markedHaveEntries sys' /\
             (forall id, is_Some (currentState (core sys) !! id) ->
                         is_Some (currentState (core sys') !! id)) /\
             (forall id, currentState (core sys) !! id = None ->
                         is_Some (currentState (core sys') !! id) ->
                         createsEntry l sys id)).
  { intros st' Hc ->. split; [| split].
    - apply markedHaveEntries_withCore; [exact Hinv |]. intros id. rewrite Hc. tauto.
    - intros id. simpl. rewrite Hc. tauto.
    - intros id Hnone [x Hx]. simpl in Hx. rewrite Hc in Hx. congruence. }
  assert (Hspawn : forall ps : settleProc * settler,
             currentState (snd ps) = currentState (core sys) ->
             marked (fst ps) = false ->
             sys' = spawn sys ps ->
             markedHaveEntries sys' /\
             (forall id, is_Some (currentState (core sys) !! id) ->
                         is_Some (currentState (core sys') !! id)) /\
             (forall id, currentState (core sys) !! id = None ->
                         is_Some (currentState (core sys') !! id) ->
                         createsEntry l sys id)).
  { intros [p st'] Hc Hm ->. simpl in Hc, Hm. split; [| split].
    - apply markedHaveEntries_keeps; [exact Hinv | |].
      + intros id. simpl. rewrite Hc. tauto.
      + constructor; [| constructor]. simpl. congruence.
    - intros id. simpl. rewrite Hc. tauto.
    - intros id Hnone [x Hx]. simpl in Hx. rewrite Hc in Hx. congruence. }
  assert (Hwrite : forall (id0 : Identity) (st' : settler),
             mapWrite (currentState (core sys)) id0 (currentState st') ->
             sys' = withCore sys st' ->
             (currentState (core sys) !! id0 = None -> createsEntry l sys id0) ->
             markedHaveEntries sys' /\
             (forall id, is_Some (currentState (core sys) !! id) ->
                         is_Some (currentState (core sys') !! id)) /\
             (forall id, currentState (core sys) !! id = None ->
                         is_Some (currentState (core sys') !! id) ->
                         createsEntry l sys id)).
  { intros id0 st' Hw -> Hcr. split; [| split].
    - apply markedHaveEntries_withCore; [exact Hinv |].
      intros id. apply (mapWrite_keeps _ _ _ _ Hw).
    - intros id. apply (mapWrite_keeps _ _ _ _ Hw).
    - intros id Hnone Hsome. simpl in Hsome.
      destruct (mapWrite_new _ _ _ _ Hw Hnone Hsome) as [-> Hn]. apply Hcr, Hn. }
  destruct l as [| | addr | | | id status | id running | apep | id h | id b h | id | i a];
    simpl in Hstep.
  - injection Hstep as <-. refine (Hsame _ _ eq_refl); reflexivity.
  - injection Hstep as <-. refine (Hsame _ _ eq_refl); reflexivity.
  - destruct (bool_decide (addr ∈ Accounts env)); [| discriminate].
    injection Hstep as <-. refine (Hwrite addr _ _ eq_refl _).
    + apply loadInitialState_mapWrite.
    + intros _. reflexivity.
  - destruct (dispatchers (core sys)); [discriminate |].
    unfold dequeue in Hstep. destruct (settleQueue (core sys)) as [| r q]; [discriminate |].
    injection Hstep as <-. refine (Hspawn _ _ _ eq_refl); reflexivity.
  - destruct (dispatchers (core sys)); [discriminate |].
    destruct (stopClosed (core sys)); [| discriminate].
    injection Hstep as <-. refine (Hsame _ _ eq_refl); reflexivity.
  - injection Hstep as <-. unfold handleRegistrationEvent.
    destruct status; simpl; try (refine (Hsame _ _ eq_refl); reflexivity).
    refine (Hwrite id _ _ eq_refl _).
    + apply resyncState_mapWrite.
    + intros _. split; reflexivity.
  - injection Hstep as <-. unfold handleServiceEvent.
    destruct running; [| refine (Hsame _ _ eq_refl); reflexivity].
    refine (Hwrite id _ _ eq_refl _).
    + apply loadInitialState_mapWrite.
    + intros _. split; reflexivity.
  - injection Hstep as <-.
    destruct (handleHermesPromiseReceived_mapWrite env apep (core sys)) as [Hw Hex].
    destruct (currentState (core sys) !! ProviderID apep) as [s |] eqn:Hs.
    + refine (Hwrite (ProviderID apep) _ Hw eq_refl _). rewrite Hs. discriminate.
    + refine (Hsame _ _ eq_refl). apply Hex. reflexivity.
  - injection Hstep as <-.
    refine (Hspawn _ _ _ eq_refl); apply loadAndEnter_fresh.
  - injection Hstep as <-.
    refine (Hspawn _ _ _ eq_refl); apply loadAndEnter_fresh.
  - injection Hstep as <-. refine (Hsame _ _ eq_refl); reflexivity.
  - destruct (procs sys !! i) as [p |] eqn:Hp; [| discriminate].
    destruct (procStep cfg env a (p, core sys)) as [[p' st'] |] eqn:Hps; [| discriminate].
    injection Hstep as <-.
    pose proof (Forall_lookup_1 _ _ _ _ Hinv Hp) as Hm. simpl in Hm.
    assert (Hfin : rp p' = rp p ->
                   mapWrite (currentState (core sys)) (provider (rp p)) (currentState st') ->
                   (marked p' = true -> is_Some (currentState st' !! provider (rp p))) ->
                   markedHaveEntries {| core := st'; procs := <[i := p']> (procs sys) |} /\
                   (forall id, is_Some (currentState (core sys) !! id) ->
                               is_Some (currentState st' !! id))).
    { intros Hrp Hw Hm'. split; [| intros id; apply (mapWrite_keeps _ _ _ _ Hw)].
      unfold markedHaveEntries. simpl. apply Forall_insert.
      - eapply Forall_impl; [exact Hinv |]. intros q Hq Hmq.
        apply (mapWrite_keeps _ _ _ _ Hw), Hq, Hmq.
      - rewrite Hrp. exact Hm'. }
    destruct a as [| o]; cbn [procStep fst snd] in Hps.
    + destruct (callerStep_mapWrite env p p' (core sys) st' Hps Hm)
        as (Hrp & Hw & Hm' & Hnew).
      destruct (Hfin Hrp Hw Hm') as [Hinv' Hkeep].
      split; [exact Hinv' |]. split; [exact Hkeep |].
      intros id Hnone Hsome. simpl in Hsome.
      destruct (mapWrite_new _ _ _ _ Hw Hnone Hsome) as [-> Hn].
      exists p. split; [exact Hp |]. split; [apply Hnew; assumption | reflexivity].
    + destruct (waiterStep_mapWrite env o p p' (core sys) st' Hps Hm)
        as (Hrp & Hw & Hin & Hin').
      destruct (Hfin Hrp Hw (fun _ => Hin')) as [Hinv' Hkeep].
      split; [exact Hinv' |]. split; [exact Hkeep |].
      intros id Hnone Hsome. simpl in Hsome.
      destruct (mapWrite_new _ _ _ _ Hw Hnone Hsome) as [-> Hn].
      destruct Hin as [x Hx]. congruence.
Qed.

Lemma initial_markedHaveEntries : markedHaveEntries initialSystem.
Proof. constructor. Qed.

Lemma reachable_markedHaveEntries (sys : system) :
  reachable cfg sys -> markedHaveEntries sys.
Proof.
  induction 1 as [| env l sys sys' _ IH Hstep].
  - apply initial_markedHaveEntries.
  - exact (proj1 (step_entries env l sys sys' IH Hstep)).
Qed.

(** C9, as the code has it. In every system the settler can reach, a step
    never removes an entry of the map, and an identity gets its first entry
    only by a service event with status running, a registration event with
    status registered, a load started by the start of the node, or a step
    of a settlement of that identity, namely its [setSettling(true)].
    [GetEarnings], a promise event, the first part of [ForceSettle] and of
    [SettleWithBeneficiary], the dispatcher and the steps of a waiter give
    no identity a first entry. *)
Theorem entries_created_only_by (env : Collaborators) (l : label) (sys sys' : system) :
  reachable cfg sys ->
  step cfg env l sys = Some sys' ->
  (forall id, is_Some (currentState (core sys) !! id) ->
              is_Some (currentState (core sys') !! id)) /\
  (forall id, currentState (core sys) !! id = None ->
              is_Some (currentState (core sys') !! id) ->
              createsEntry l sys id) /\
  (forall id, currentState (core sys) !! id = None ->
              is_Some (currentState (core sys') !! id) ->
              match l with
              | LGetEarnings _ | LPromise _ | LForceSettle _ _
              | LSettleWithBeneficiary _ _ _ | LProc _ (AWaiter _)
              | LNodeStarted | LNodeStopped | LDispatch | LDispatcherStop => False
              | _ => True
              end).
Proof.
  intros Hreach Hstep.
  destruct (step_entries env l sys sys' (reachable_markedHaveEntries sys Hreach) Hstep)
    as (_ & Hkeep & Hnew).
  split; [exact Hkeep |]. split; [exact Hnew |].
  intros id Hnone Hsome. pose proof (Hnew id Hnone Hsome) as Hc.
  destruct l as [| | addr | | | id' status | id' running | apep | id' h | id' b h | id' | i a];
    simpl in Hc; try exact Hc; try exact I.
  destruct a; [exact I | exact Hc].
Qed.

End Entries.

(** [ForceSettle] for an identity without entry creates one: after the
    check and the mark, ["q"] has an unregistered entry that is settling. *)
Lemma forceSettle_creates_entry :
  exists sys' : system,
    run Fixtures.config Fixtures.env
      [LForceSettle "q" Fixtures.hermes; LProc 0 ACaller; LProc 0 ACaller]
      initialSystem = Some sys' /\
    currentState (core initialSystem) !! "q" = None /\
    currentState (core sys') !! "q" = Some (withSettling zeroState true).
Proof. eexists. split; [vm_compute; reflexivity |]. split; vm_compute; reflexivity. Qed.

Lemma entries_created_only_by_witness :
  createsEntry (LService "p" true) initialSystem "p".
Proof.
  refine (proj1 (proj2
    (entries_created_only_by Fixtures.config Fixtures.env (LService "p" true)
       initialSystem
       (withCore initialSystem
          (handleServiceEvent Fixtures.config Fixtures.env "p" true NewHermesPromiseSettler))
       (reachable_initial _) eq_refl)) "p" _ _).
  - vm_compute. reflexivity.
  - vm_compute. eauto.
Defined.

(* ===================================================================== *)
(** ** Settlements of one provider side by side *)
(* ===================================================================== *)

(** [settle] refuses a provider whose flag is set. *)
Lemma settle_rejects_in_progress (cfg : HermesPromiseSettlerConfig) (env : Collaborators)
    (p : settleProc) (st : settler) :
  caller p = AtCheck ->
  isSettling st (provider (rp p)) = true ->
  callerStep cfg env p st = Some (setCaller p (Returned (Some ErrAlreadyInProgress)), st).
Proof. intros Hc Hs. unfold callerStep. rewrite Hc, Hs. reflexivity. Qed.

(** C3, at a failing schedule. The state of ["p"] is loaded; two calls of
    [ForceSettle] for ["p"] both read the flag before either sets it. Both
    pass the check, both subscribe and both submit: two settlements of
    ["p"] are outstanding at once, and none was refused. *)
Theorem two_settlements_outstanding :
  exists sys' : system,
    run Fixtures.config Fixtures.env
      [LService "p" true;
       LForceSettle "p" Fixtures.hermes; LForceSettle "p" Fixtures.hermes;
       LProc 0 ACaller; LProc 1 ACaller;      (* both read the flag: not settling *)
       LProc 0 ACaller; LProc 1 ACaller;      (* both set it *)
       LProc 0 ACaller; LProc 1 ACaller;      (* both subscribe *)
       LProc 0 ACaller; LProc 1 ACaller]      (* both submit *)
      initialSystem = Some sys' /\
    outstandingCount "p" sys' = 2%nat /\
    length (filter (fun c => isTransactorCall c = true) (calls (core sys'))) = 2%nat /\
    Forall (fun p => caller p = AtAwait) (procs sys').
Proof.
  eexists. split; [vm_compute; reflexivity |].
  split; [vm_compute; reflexivity |]. split; [vm_compute; reflexivity |].
  repeat constructor.
Qed.

(** When the second call reads the flag after the first has set it, it is
    refused. *)
Lemma second_settle_rejected_after_mark :
  exists sys' : system,
    run Fixtures.config Fixtures.env
      [LService "p" true;
       LForceSettle "p" Fixtures.hermes; LForceSettle "p" Fixtures.hermes;
       LProc 0 ACaller; LProc 0 ACaller;     (* the first reads and sets the flag *)
       LProc 1 ACaller]                      (* the second reads it *)
      initialSystem = Some sys' /\
    caller <$> procs sys' !! 1%nat = Some (Returned (Some ErrAlreadyInProgress)).
Proof. eexists. split; vm_compute; reflexivity. Qed.

(** The flag does not outlive a resynchronisation: a registration event that
    arrives while a settlement of ["p"] is outstanding overwrites the entry,
    the provider is no longer settling, and a second [ForceSettle] is
    accepted. *)
Lemma resync_clears_flag_of_outstanding_settlement :
  exists sys1 sys2 : system,
    run Fixtures.config Fixtures.env
      [LService "p" true; LForceSettle "p" Fixtures.hermes;
       LProc 0 ACaller; LProc 0 ACaller; LProc 0 ACaller; LProc 0 ACaller;
       LRegistration "p" Registered]
      initialSystem = Some sys1 /\
    outstandingCount "p" sys1 = 1%nat /\
    isSettling (core sys1) "p" = false /\
    run Fixtures.config Fixtures.env
      [LForceSettle "p" Fixtures.hermes;
       LProc 1 ACaller; LProc 1 ACaller; LProc 1 ACaller; LProc 1 ACaller]
      sys1 = Some sys2 /\
    outstandingCount "p" sys2 = 2%nat.
Proof.
  eexists. eexists. split; [vm_compute; reflexivity |].
  split; [vm_compute; reflexivity |]. split; [vm_compute; reflexivity |].
  split; vm_compute; reflexivity.
Qed.

(** The same on the path of the promises: two promise events of ["p"] both
    ask for a settlement before the first one has set the flag, the
    dispatcher starts [settle] for both, and both are submitted. *)
Lemma queued_settlements_race :
  exists sys' : system,
    run Fixtures.config Fixtures.env
      [LService "p" true; LNodeStarted;
       LPromise (Fixtures.promiseEvent 60); LPromise (Fixtures.promiseEvent 61);
       LDispatch; LDispatch;
       LProc 0 ACaller; LProc 1 ACaller; LProc 0 ACaller; LProc 1 ACaller;
       LProc 0 ACaller; LProc 1 ACaller; LProc 0 ACaller; LProc 1 ACaller]
      initialSystem = Some sys' /\
    settleQueue (core sys') = [] /\
    outstandingCount "p" sys' = 2%nat /\
    length (filter (fun c => isTransactorCall c = true) (calls (core sys'))) = 2%nat.
Proof.
  eexists. split; [vm_compute; reflexivity |].
  split; [vm_compute; reflexivity |]. split; vm_compute; reflexivity.
Qed.

(* ===================================================================== *)
(** ** Resynchronisation, in full *)
(* ===================================================================== *)

Section Resync.

Variable cfg : HermesPromiseSettlerConfig.

(** X1. [resyncState] is all or nothing. When it returns an error the map
    of states, the settle queue and the published events are what they
    were; when it returns none, the entry of the identity is replaced by a
    registered state that is not settling, one earnings event is published,
    and every other entry is untouched. *)
Theorem resyncState_all_or_nothing (env : Collaborators) (id : Identity) (st : settler) :
  let r := resyncState cfg env id st in
  (forall e, fst r = Some e ->
     currentState (snd r) = currentState st /\
     settleQueue (snd r) = settleQueue st /\
     publishCount (snd r) = publishCount st) /\
  (fst r = None ->
     registered (lookupState (snd r) id) = true /\
     settleInProgress (lookupState (snd r) id) = false /\
     publishCount (snd r) = S (publishCount st) /\
     settleQueue (snd r) = settleQueue st /\
     forall id', id' <> id -> currentState (snd r) !! id' = currentState st !! id').
Proof.
  intros r. subst r.
  pose proof (resyncState_resynced cfg env id st) as Hr.
  inversion Hr as [e st' Hc Hp Hq Heq | s st' Hreg Hprog Hc Hp Hq Heq]; simpl.
  - split; [intros _ _; auto | discriminate].
  - split; [discriminate |]. intros _.
    unfold lookupState. rewrite Hc, lookup_insert_eq. simpl.
    repeat split; try assumption.
    intros id' Hne. apply lookup_insert_ne. congruence.
Qed.

(** X2. A resynchronisation publishes an earnings event whether or not the
    earnings changed. When one succeeds and is run again with the same
    answers, the map is left as the first run left it, and the second run
    still publishes an event, whose previous and current earnings are
    equal. *)
Theorem resyncState_twice (env : Collaborators) (id : Identity) (st : settler) :
  fst (resyncState cfg env id st) = None ->
  let st1 := snd (resyncState cfg env id st) in
  let e := stateEarnings (lookupState st1 id) in
  fst (resyncState cfg env id st1) = None /\
  currentState (snd (resyncState cfg env id st1)) = currentState st1 /\
  calls (snd (resyncState cfg env id st1))
    = calls st1 ++ [CGetProviderChannel (HermesAddress cfg) id true;
                    CPromiseGet id (HermesAddress cfg);
                    CPublish {| EvIdentity := id; Previous := e; Current := e |}].
Proof.
  unfold resyncState, resyncStore.
  destruct (GetProviderChannel env (HermesAddress cfg) id true) as [ch [e |]];
    [discriminate |].
  destruct (PromiseGet env id (HermesAddress cfg)) as [hp [e |]];
    [destruct (isErrNotFound e); [| discriminate] |];
    intros _; cbn -[lookupState];
    (split; [reflexivity |]);
    unfold lookupState; simpl; rewrite !lookup_insert_eq; simpl;
    (split; [apply insert_insert_eq |]);
    rewrite <- !app_assoc; reflexivity.
Qed.

End Resync.

Lemma resyncState_all_or_nothing_witness :
  registered (lookupState
    (snd (resyncState Fixtures.config Fixtures.env "p" NewHermesPromiseSettler)) "p") = true.
Proof.
  apply (resyncState_all_or_nothing Fixtures.config Fixtures.env "p" NewHermesPromiseSettler).
  vm_compute. reflexivity.
Defined.

Lemma resyncState_twice_witness :
  currentState
    (snd (resyncState Fixtures.config Fixtures.env "p"
       (snd (resyncState Fixtures.config Fixtures.env "p" NewHermesPromiseSettler))))
  = currentState (snd (resyncState Fixtures.config Fixtures.env "p" NewHermesPromiseSettler)).
Proof.
  apply (resyncState_twice Fixtures.config Fixtures.env "p" NewHermesPromiseSettler).
  vm_compute. reflexivity.
Defined.

(* ===================================================================== *)
(** ** Providers do not interfere *)
(* ===================================================================== *)

Section Isolation.

Variable cfg : HermesPromiseSettlerConfig.

Lemma mapWrite_frame (m m' : gmap string settlementState) (id id' : Identity) :
  mapWrite m id m' -> id' <> id -> m' !! id' = m !! id'.
Proof.
  intros [| s] Hne; [reflexivity |]. apply lookup_insert_ne. congruence.
Qed.

(** A step of a settlement writes the entry of its provider at most. *)
Lemma procStep_writes (env : Collaborators) (a : action) (p p' : settleProc)
    (st st' : settler) :
  procStep cfg env a (p, st) = Some (p', st') ->
  mapWrite (currentState st) (provider (rp p)) (currentState st').
Proof.
  destruct a as [| o]; cbn [procStep fst snd].
  - unfold callerStep. destruct (caller p).
    + destruct (isSettling st (provider (rp p))); intros [= <- <-]; constructor.
    + intros [= <- <-]. apply setSettling_mapWrite.
    + destruct (SubscribeToPromiseSettledEvent env _ _); intros [= <- <-];
        [apply (setSettling_mapWrite _ false (logCall _ st)) | constructor].
    + destruct (settleFunc cfg env p); intros [= <- <-]; constructor.
    + destruct (waiter p); try (destruct (errChClosed p)); try discriminate;
        intros [= <- <-]; constructor.
    + discriminate.
  - unfold waiterStep. destruct (waiter p); try discriminate.
    + destruct o as [| [info |] |].
      * destruct (stopClosed st); [| discriminate]. intros [= <- <-]. constructor.
      * intros [= <- <-].
        destruct (Store env _ _ _);
          apply (resyncState_mapWrite cfg env (provider (rp p)) (logCall _ st)).
      * intros [= <- <-]. constructor.
      * intros [= <- <-]. constructor.
    + intros [= <- <-]. constructor.
    + intros [= <- <-]. apply (setSettling_mapWrite _ false st).
Qed.

(** X3. Providers are isolated from one another: whatever happens next, an
    event of the bus, a public operation or a step of a settlement, it
    changes at most the entry of the identity it is about; the entries of
    all other identities are left as they are. *)
Theorem providers_isolated (env : Collaborators) (l : label) (sys sys' : system)
    (id' : Identity) :
  step cfg env l sys = Some sys' ->
  subject l sys <> Some id' ->
  currentState (core sys') !! id' = currentState (core sys) !! id'.
Proof.
  intros Hstep Hsubj.
  destruct l as [| | addr | | | id status | id running | apep | id h | id b h | id | i a];
    simpl in Hstep, Hsubj.
  - injection Hstep as <-. reflexivity.
  - injection Hstep as <-. reflexivity.
  - destruct (bool_decide (addr ∈ Accounts env)); [| discriminate].
    injection Hstep as <-. simpl.
    apply (mapWrite_frame _ _ addr); [apply loadInitialState_mapWrite | congruence].
  - destruct (dispatchers (core sys)); [discriminate |].
    unfold dequeue in Hstep. destruct (settleQueue (core sys)); [discriminate |].
    injection Hstep as <-. reflexivity.
  - destruct (dispatchers (core sys)); [discriminate |].
    destruct (stopClosed (core sys)); [| discriminate].
    injection Hstep as <-. reflexivity.
  - injection Hstep as <-. simpl. unfold handleRegistrationEvent.
    destruct (isRegistered status); [| reflexivity].
    apply (mapWrite_frame _ _ id); [apply resyncState_mapWrite | congruence].
  - injection Hstep as <-. simpl. unfold handleServiceEvent.
    destruct running; [| reflexivity].
    apply (mapWrite_frame _ _ id); [apply loadInitialState_mapWrite | congruence].
  - injection Hstep as <-. simpl.
    apply (mapWrite_frame _ _ (ProviderID apep));
      [apply handleHermesPromiseReceived_mapWrite | congruence].
  - injection Hstep as <-. unfold spawn, ForceSettle. cbn [core].
    rewrite (proj1 (loadAndEnter_fresh env id None h (core sys))). reflexivity.
  - injection Hstep as <-. unfold spawn, SettleWithBeneficiary. cbn [core].
    rewrite (proj1 (loadAndEnter_fresh env id (Some b) h (core sys))). reflexivity.
  - injection Hstep as <-. reflexivity.
  - destruct (procs sys !! i) as [p |]; [| discriminate].
    destruct (procStep cfg env a (p, core sys)) as [[p' st'] |] eqn:Hps; [| discriminate].
    injection Hstep as <-. simpl.
    apply (mapWrite_frame _ _ (provider (rp p)));
      [exact (procStep_writes env a p p' (core sys) st' Hps) | congruence].
Qed.

End Isolation.

Lemma providers_isolated_witness :
  currentState (core (withCore initialSystem
      (handleServiceEvent Fixtures.config Fixtures.env "p" true NewHermesPromiseSettler))) !! "q"
  = currentState (core initialSystem) !! "q".
Proof.
  apply (providers_isolated Fixtures.config Fixtures.env (LService "p" true) initialSystem).
  - reflexivity.
  - discriminate.
Defined.

(* ===================================================================== *)
(** ** A promise for a registered provider *)
(* ===================================================================== *)

Section PromiseReceived.

Variable cfg : HermesPromiseSettlerConfig.

Lemma newCalls_app (st st' : settler) (new : list call) :
  calls st' = calls st ++ new -> newCalls st st' = new.
Proof. intros H. unfold newCalls. rewrite H. apply drop_app_length. Qed.

Lemma initiateSettling_effect (env : Collaborators) (id : Identity) (h : Address)
    (st : settler) :
  calls (initiateSettling env id h st) = calls st ++ [CPromiseGet id h] /\
  exists q : list receivedPromise,
    settleQueue (initiateSettling env id h st) = settleQueue st ++ q /\
    (q = [] \/
     exists hexR : list byte,
       snd (PromiseGet env id h) = None /\
       hexDecodeString (hpR (fst (PromiseGet env id h))) = inl hexR /\
       q = [{| provider := id;
               promise := withR (hpPromise (fst (PromiseGet env id h))) hexR |}]).
Proof.
  unfold initiateSettling.
  destruct (PromiseGet env id h) as [hp [e |]]; simpl.
  - split; [reflexivity |]. exists []. rewrite app_nil_r. auto.
  - destruct (hexDecodeString (hpR hp)) as [hexR | e] eqn:Hdec; simpl.
    + split; [reflexivity |]. eexists. split; [reflexivity |].
      right. exists hexR. auto.
    + split; [reflexivity |]. exists []. rewrite app_nil_r. auto.
Qed.

(** X4. A promise event for a registered provider publishes exactly one
    earnings event, from the earnings of the stored state to those of the
    state with the new promise, whose lifetime balance is the amount of the
    promise received; the channel, the registration and the settling flag of
    the entry are kept. *)
Theorem promise_received_publishes (env : Collaborators) (apep : AppEventHermesPromise)
    (st : settler) (s : settlementState) :
  currentState st !! ProviderID apep = Some s ->
  registered s = true ->
  let st' := handleHermesPromiseReceived cfg env apep st in
  let s' := withPromise s (EvPromise apep) in
  lookupState st' (ProviderID apep) = s' /\
  channel s' = channel s /\ settleInProgress s' = settleInProgress s /\
  registered s' = true /\
  LifetimeBalance (stateEarnings s') = Amount (EvPromise apep) /\
  exists rest : list call,
    calls st' = calls st
      ++ CPublish {| EvIdentity := ProviderID apep; Previous := stateEarnings s;
                     Current := stateEarnings s' |} :: rest /\
    Forall (fun c => isPublish c = false) rest.
Proof.
  intros Hs Hreg st' s'. subst st'.
  pose proof (handleHermesPromiseReceived_registered cfg env apep st s Hs Hreg) as Hmap.
  split; [| split; [reflexivity | split; [reflexivity | split; [exact Hreg | split; [reflexivity |]]]]].
  - unfold lookupState. rewrite Hmap, lookup_insert_eq. reflexivity.
  - unfold handleHermesPromiseReceived. rewrite Hs, Hreg. simpl.
    rewrite (lookupState_Some st _ s Hs). fold s'.
    destruct (needsSettling s' (Threshold cfg)).
    + destruct (initiateSettling_effect env (ProviderID apep) (HermesID apep)
                  (setState (ProviderID apep) s'
                     (logCall (changeEvent (ProviderID apep) s s') st))) as [Hc _].
      rewrite Hc. simpl. rewrite <- app_assoc. simpl.
      eexists. split; [reflexivity |]. repeat constructor.
    + simpl. eexists. split; [reflexivity |]. constructor.
Qed.

(** X5. A promise event for a registered provider adds at most one promise
    to the settle queue, and only when the new state needs settling. What
    is queued is not the promise of the event but the one the promise
    storage holds for the provider and the hermes of the event, with [R]
    decoded; nothing is queued when the storage has none, fails, or holds
    an [R] that is not hexadecimal. The handler itself never subscribes to
    the chain, never calls the transactor and never stores history. *)
Theorem promise_received_queue (env : Collaborators) (apep : AppEventHermesPromise)
    (st : settler) (s : settlementState) :
  currentState st !! ProviderID apep = Some s ->
  registered s = true ->
  let id := ProviderID apep in
  let st' := handleHermesPromiseReceived cfg env apep st in
  let stored := PromiseGet env id (HermesID apep) in
  (exists q : list receivedPromise,
     settleQueue st' = settleQueue st ++ q /\
     (length q <= 1)%nat /\
     (needsSettling (withPromise s (EvPromise apep)) (Threshold cfg) = false -> q = []) /\
     (forall e, snd stored = Some e -> q = []) /\
     (forall e, hexDecodeString (hpR (fst stored)) = inr e -> q = []) /\
     (forall r, r ∈ q ->
        needsSettling (withPromise s (EvPromise apep)) (Threshold cfg) = true /\
        provider r = id /\
        exists hexR, hexDecodeString (hpR (fst stored)) = inl hexR /\
                     promise r = withR (hpPromise (fst stored)) hexR) /\
     (needsSettling (withPromise s (EvPromise apep)) (Threshold cfg) = true ->
      snd stored = None ->
      forall hexR, hexDecodeString (hpR (fst stored)) = inl hexR ->
        q = [{| provider := id; promise := withR (hpPromise (fst stored)) hexR |}])) /\
  Forall (fun c => isSubscribe c = false /\ isTransactorCall c = false /\ isStore c = false)
         (newCalls st st').
Proof.
  intros Hs Hreg id st' stored. subst st' stored id.
  unfold handleHermesPromiseReceived. rewrite Hs, Hreg. simpl.
  destruct (needsSettling _ _) eqn:Hneeds.
  - destruct (initiateSettling_effect env (ProviderID apep) (HermesID apep)
                (setState (ProviderID apep) (withPromise s (EvPromise apep))
                   (logCall (changeEvent (ProviderID apep) (lookupState st (ProviderID apep))
                               (withPromise s (EvPromise apep))) st)))
      as [Hc [q [Hq Hcases]]].
    split.
    + exists q. split; [exact Hq |].
      destruct Hcases as [-> | (hexR & Hnone & Hdec & ->)].
      * split; [simpl; lia |]. split; [reflexivity |]. split; [reflexivity |].
        split; [reflexivity |]. split; [intros r Hr; inversion Hr |].
        intros _ Hnone hexR Hdec. exfalso. revert Hq.
        unfold initiateSettling.
        destruct (PromiseGet env (ProviderID apep) (HermesID apep)) as [hp [e |]];
          [discriminate |].
        simpl in Hdec. rewrite Hdec. simpl. rewrite app_nil_r. intros Hq.
        apply (f_equal length) in Hq. rewrite length_app in Hq. simpl in Hq. lia.
      * split; [simpl; lia |]. split; [discriminate |].
        split; [intros e He; congruence |]. split; [intros e He; congruence |].
        split.
        -- intros r Hr. apply list_elem_of_singleton in Hr. subst r.
           split; [reflexivity |]. split; [reflexivity |]. exists hexR. auto.
        -- intros _ _ hexR' Hdec'. congruence.
    + rewrite (newCalls_app st _ _ (eq_trans Hc (eq_sym (app_assoc _ _ _)))).
      repeat constructor.
  - split.
    + exists []. simpl. rewrite app_nil_r.
      split; [reflexivity |]. split; [lia |]. split; [reflexivity |].
      split; [reflexivity |]. split; [reflexivity |].
      split; [intros r Hr; inversion Hr | discriminate].
    + erewrite newCalls_app; [| simpl; reflexivity]. repeat constructor.
Qed.

End PromiseReceived.

Lemma promise_received_publishes_witness :
  lookupState
    (handleHermesPromiseReceived Fixtures.config Fixtures.env (Fixtures.promiseEvent 20)
       (Fixtures.holding (stateOf 100 0 10 false true))) "p"
  = withPromise (stateOf 100 0 10 false true) (Fixtures.promiseOf 20).
Proof.
  apply (promise_received_publishes Fixtures.config Fixtures.env (Fixtures.promiseEvent 20)
           (Fixtures.holding (stateOf 100 0 10 false true)) (stateOf 100 0 10 false true)).
  - vm_compute. reflexivity.
  - reflexivity.
Defined.

(** The event carries a promise of 61 and the storage one of 60: the
    promise of 60 is queued. *)
Lemma promise_received_queue_witness :
  exists q : list receivedPromise,
    settleQueue
      (handleHermesPromiseReceived Fixtures.config Fixtures.env (Fixtures.promiseEvent 61)
         (Fixtures.holding (stateOf 100 0 10 false true))) = [] ++ q /\
    q = [{| provider := "p"; promise := withR (Fixtures.promiseOf 60) [x0a; xff] |}].
Proof.
  destruct (promise_received_queue Fixtures.config Fixtures.env (Fixtures.promiseEvent 61)
              (Fixtures.holding (stateOf 100 0 10 false true)) (stateOf 100 0 10 false true))
    as [(q & Hq & _ & _ & _ & _ & _ & Hfull) _].
  - vm_compute. reflexivity.
  - reflexivity.
  - exists q. split; [exact Hq |].
    apply (Hfull ltac:(vm_compute; reflexivity) eq_refl [x0a; xff] eq_refl).
Defined.

(* ===================================================================== *)
(** ** The ways a settlement ends *)
(* ===================================================================== *)

Section SettlePaths.

Variable cfg : HermesPromiseSettlerConfig.

Ltac settle_cbn :=
  cbn -[isSettling setSettling logCall lookupState resyncState].

Lemma requestSettle_loadAndEnter (env : Collaborators) (id : Identity)
    (b : option Address) (hermesID : Address) (st : settler) :
  requestSettle env id b hermesID st = loadAndEnter env id b hermesID st.
Proof. destruct b; reflexivity. Qed.

(** A call that has returned and has no waiter makes no step. *)
Lemma returned_no_step (env : Collaborators) (a : action) (p : settleProc) (st : settler) :
  (exists e, caller p = Returned e) -> waiter p = NotSpawned ->
  procStep cfg env a (p, st) = None.
Proof.
  intros [e Hc] Hw. destruct a; cbn [procStep fst snd].
  - unfold callerStep. rewrite Hc. reflexivity.
  - unfold waiterStep. rewrite Hw. reflexivity.
Qed.

(** X6. When the promise storage has no promise for the provider,
    [ForceSettle] and [SettleWithBeneficiary] return [ErrNothingToSettle];
    when the storage fails otherwise, or when the stored [R] is not
    hexadecimal, they return an error as well. In all these cases [settle]
    is not entered: the only call made is the read of the storage, the map
    and the queue are untouched, and nothing runs afterwards. *)
Theorem settle_without_promise (env : Collaborators) (id : Identity)
    (b : option Address) (hermesID : Address) (st : settler) :
  let stored := PromiseGet env id hermesID in
  let ps := requestSettle env id b hermesID st in
  (snd stored <> None \/ exists e, hexDecodeString (hpR (fst stored)) = inr e) ->
  (exists err, caller (fst ps) = Returned (Some err) /\
               (snd stored = Some ErrNotFound -> err = ErrNothingToSettle)) /\
  snd ps = logCall (CPromiseGet id hermesID) st /\
  (forall (env' : Collaborators) (a : action), procStep cfg env' a ps = None).
Proof.
  intros stored ps Hbad. subst stored ps.
  rewrite requestSettle_loadAndEnter. unfold loadAndEnter.
  destruct (PromiseGet env id hermesID) as [hp [e |]]; simpl in *.
  - destruct (isErrNotFound e) eqn:He.
    + split; [eexists; split; [reflexivity | reflexivity] |].
      split; [reflexivity |]. intros env' a. apply returned_no_step; simpl; eauto.
    + split; [eexists; split; [reflexivity |] |].
      * intros [= ->]. discriminate.
      * split; [reflexivity |]. intros env' a. apply returned_no_step; simpl; eauto.
  - destruct Hbad as [Hbad | [e Hdec]]; [congruence |]. rewrite Hdec.
    split; [eexists; split; [reflexivity | discriminate] |].
    split; [reflexivity |]. intros env' a. apply returned_no_step; simpl; eauto.
Qed.

(** X7. A settlement requested for a provider that is marked as settling
    is refused with the in-progress error at its first step. Nothing else
    happens: no subscription, no call of the transactor, the map is
    untouched, so the settlement that is under way is not disturbed, and
    the refused call makes no further step. *)
Theorem settle_refused_changes_nothing (env : Collaborators) (id : Identity)
    (b : option Address) (hermesID : Address) (st : settler)
    (hp : HermesPromise) (hexR : list byte) :
  PromiseGet env id hermesID = (hp, None) ->
  hexDecodeString (hpR hp) = inl hexR ->
  isSettling st id = true ->
  exists p' : settleProc,
    procRun cfg env [ACaller] (requestSettle env id b hermesID st)
      = Some (p', logCall (CPromiseGet id hermesID) st) /\
    caller p' = Returned (Some ErrAlreadyInProgress) /\
    (forall (env' : Collaborators) (a : action) (st' : settler),
       procStep cfg env' a (p', st') = None).
Proof.
  intros Hget Hdec Hbusy.
  rewrite requestSettle_loadAndEnter, (loadAndEnter_found env id b hermesID _ hp hexR Hget Hdec).
  unfold procRun, procStep, callerStep. settle_cbn.
  rewrite isSettling_logCall, Hbusy.
  eexists. split; [reflexivity |]. split; [reflexivity |].
  intros env' a st'. apply returned_no_step; simpl; eauto.
Qed.

(** X8. When the subscription to the settled events fails, [settle]
    returns that error as it is, after it has taken back the mark: the
    provider is not settling, its state reads as before, the transactor was
    not called, no waiter was started, and the call makes no further step. *)
Theorem settle_subscription_fails (env : Collaborators) (id : Identity)
    (b : option Address) (hermesID : Address) (st : settler)
    (hp : HermesPromise) (hexR : list byte) (err : error) :
  PromiseGet env id hermesID = (hp, None) ->
  hexDecodeString (hpR hp) = inl hexR ->
  isSettling st id = false ->
  SubscribeToPromiseSettledEvent env id (HermesAddress cfg) = Some err ->
  exists (p' : settleProc) (st' : settler),
    procRun cfg env [ACaller; ACaller; ACaller] (requestSettle env id b hermesID st)
      = Some (p', st') /\
    caller p' = Returned (Some err) /\
    waiter p' = NotSpawned /\
    isSettling st' id = false /\
    lookupState st' id = lookupState st id /\
    calls st' = calls st ++ [CPromiseGet id hermesID; CSubscribe id (HermesAddress cfg)] /\
    (forall (env' : Collaborators) (a : action) (st'' : settler),
       procStep cfg env' a (p', st'') = None).
Proof.
  intros Hget Hdec Hfree Hsub.
  rewrite requestSettle_loadAndEnter, (loadAndEnter_found env id b hermesID _ hp hexR Hget Hdec).
  unfold procRun, procStep, callerStep. settle_cbn.
  rewrite isSettling_logCall, Hfree. settle_cbn. rewrite Hsub. settle_cbn.
  eexists. eexists. split; [reflexivity |]. settle_cbn.
  split; [reflexivity |]. split; [reflexivity |].
  split; [apply isSettling_setSettling |]. split; [| split].
  - rewrite lookupState_setSettling, lookupState_logCall, lookupState_setSettling,
      lookupState_logCall, withSettling_twice.
    apply withSettling_idem. rewrite <- isSettling_lookupState. exact Hfree.
  - cbn. rewrite <- app_assoc. reflexivity.
  - intros env' a st''. destruct a; reflexivity.
Qed.

(** The state a settlement leaves once its deferred [setSettling(false)]
    has run reads as the state before it was marked. *)
Lemma lookupState_unmarked (st : settler) (id : Identity) (c1 c2 c3 : call) :
  isSettling st id = false ->
  lookupState (setSettling id false (logCall c3 (logCall c2 (setSettling id true (logCall c1 st))))) id
    = lookupState st id.
Proof.
  intros Hfree.
  rewrite lookupState_setSettling, !lookupState_logCall, lookupState_setSettling,
    lookupState_logCall, withSettling_twice.
  apply withSettling_idem. rewrite <- isSettling_lookupState. exact Hfree.
Qed.

(** X9. When the transactor refuses the promise, [settle] cancels the
    subscription and returns the error of the transactor as it is, but the
    provider stays marked as settling, because the mark is only taken back
    by the waiter, which still waits. When the sink is closed afterwards the
    waiter ends: no history entry is stored, no resynchronisation is made,
    the subscription is cancelled a second time, and then the provider is
    not settling and its state reads as before the call. *)
Theorem settle_submission_fails (env : Collaborators) (id : Identity)
    (b : option Address) (hermesID : Address) (st : settler)
    (hp : HermesPromise) (hexR : list byte) (err : error) :
  PromiseGet env id hermesID = (hp, None) ->
  hexDecodeString (hpR hp) = inl hexR ->
  isSettling st id = false ->
  SubscribeToPromiseSettledEvent env id (HermesAddress cfg) = None ->
  let p0 := enterSettle {| provider := id; promise := withR (hpPromise hp) hexR |} b in
  settleFunc cfg env p0 = Some err ->
  exists (p1 : settleProc) (st1 : settler),
    procRun cfg env failedSubmission (requestSettle env id b hermesID st) = Some (p1, st1) /\
    caller p1 = Returned (Some err) /\
    waiter p1 = Selecting /\
    isSettling st1 id = true /\
    calls st1 = calls st ++ [CPromiseGet id hermesID; CSubscribe id (HermesAddress cfg);
                             settleFuncCall cfg p0; CCancel id (HermesAddress cfg)] /\
    exists (p2 : settleProc) (st2 : settler),
      procRun cfg env [AWaiter (WSink None); AWaiter (WSink None); AWaiter (WSink None)]
        (p1, st1) = Some (p2, st2) /\
      waiter p2 = Finished /\
      isSettling st2 id = false /\
      lookupState st2 id = lookupState st id /\
      calls st2 = calls st1 ++ [CCancel id (HermesAddress cfg)].
Proof.
  intros Hget Hdec Hfree Hsub p0 Htx. subst p0.
  rewrite requestSettle_loadAndEnter, (loadAndEnter_found env id b hermesID _ hp hexR Hget Hdec).
  unfold settleFunc in Htx.
  unfold failedSubmission, procRun, procStep, callerStep, waiterStep, settleFunc.
  cbn -[isSettling setSettling logCall lookupState resyncState] in Htx |- *.
  rewrite isSettling_logCall, Hfree. settle_cbn. rewrite Hsub. settle_cbn.
  rewrite Htx. settle_cbn.
  eexists. eexists. split; [reflexivity |].
  split; [reflexivity |]. split; [reflexivity |].
  split; [rewrite !isSettling_logCall; apply isSettling_setSettling |].
  split; [cbn; rewrite <- !app_assoc; reflexivity |].
  settle_cbn. eexists. eexists. split; [reflexivity |]. settle_cbn.
  split; [reflexivity |].
  split; [rewrite isSettling_logCall; apply isSettling_setSettling |].
  split; [| reflexivity].
  rewrite lookupState_logCall, lookupState_setSettling, !lookupState_logCall,
    lookupState_setSettling, lookupState_logCall, withSettling_twice.
  apply withSettling_idem. rewrite <- isSettling_lookupState. exact Hfree.
Qed.

(** X10. When the transactor refuses the promise and the waiter then times
    out, the waiter blocks for ever: it sends the timeout on a channel that
    nobody reads any more, since the caller has returned with the error of
    the transactor. Its deferred calls never run, so the provider stays
    marked as settling, and neither goroutine of the call can make a step,
    whatever the state of the settler and whatever the collaborators
    answer. *)
Theorem settle_submission_fails_then_timeout (env : Collaborators) (id : Identity)
    (b : option Address) (hermesID : Address) (st : settler)
    (hp : HermesPromise) (hexR : list byte) (err : error) :
  PromiseGet env id hermesID = (hp, None) ->
  hexDecodeString (hpR hp) = inl hexR ->
  isSettling st id = false ->
  SubscribeToPromiseSettledEvent env id (HermesAddress cfg) = None ->
  settleFunc cfg env
    (enterSettle {| provider := id; promise := withR (hpPromise hp) hexR |} b) = Some err ->
  exists (p' : settleProc) (st' : settler),
    procRun cfg env (failedSubmission ++ [AWaiter WTimeout])
      (requestSettle env id b hermesID st) = Some (p', st') /\
    caller p' = Returned (Some err) /\
    waiter p' = Sending /\
    isSettling st' id = true /\
    (forall (env' : Collaborators) (a : action) (st'' : settler),
       procStep cfg env' a (p', st'') = None).
Proof.
  intros Hget Hdec Hfree Hsub Htx.
  rewrite requestSettle_loadAndEnter, (loadAndEnter_found env id b hermesID _ hp hexR Hget Hdec).
  unfold settleFunc in Htx.
  unfold failedSubmission, procRun, procStep, callerStep, waiterStep, settleFunc.
  cbn -[isSettling setSettling logCall lookupState resyncState] in Htx |- *.
  rewrite isSettling_logCall, Hfree. settle_cbn. rewrite Hsub. settle_cbn.
  rewrite Htx. settle_cbn.
  eexists. eexists. split; [reflexivity |].
  split; [reflexivity |]. split; [reflexivity |].
  split; [rewrite !isSettling_logCall; apply isSettling_setSettling |].
  intros env' a st''. destruct a; reflexivity.
Qed.

(** X11. When a settlement is submitted and its waiter then leaves the
    [select] without an event, because the node stops or because the sink
    is closed or delivers nil, the caller of [settle] receives no error
    although nothing was confirmed: no history entry is stored, no
    resynchronisation is made and no earnings event is published; the
    provider is not settling afterwards and its state reads as before. *)
Theorem settle_ends_without_event (env : Collaborators) (id : Identity)
    (b : option Address) (hermesID : Address) (st : settler)
    (hp : HermesPromise) (hexR : list byte) (o : waitOutcome) :
  PromiseGet env id hermesID = (hp, None) ->
  hexDecodeString (hpR hp) = inl hexR ->
  isSettling st id = false ->
  SubscribeToPromiseSettledEvent env id (HermesAddress cfg) = None ->
  let p0 := enterSettle {| provider := id; promise := withR (hpPromise hp) hexR |} b in
  settleFunc cfg env p0 = None ->
  (o = WSink None \/ (o = WStop /\ stopClosed st = true)) ->
  exists (p' : settleProc) (st' : settler),
    procRun cfg env (unconfirmedSchedule o) (requestSettle env id b hermesID st)
      = Some (p', st') /\
    caller p' = Returned None /\
    waiter p' = Finished /\
    calls st' = calls st ++ [CPromiseGet id hermesID; CSubscribe id (HermesAddress cfg);
                             settleFuncCall cfg p0; CCancel id (HermesAddress cfg)] /\
    isSettling st' id = false /\
    lookupState st' id = lookupState st id.
Proof.
  intros Hget Hdec Hfree Hsub p0 Htx Ho. subst p0.
  rewrite requestSettle_loadAndEnter, (loadAndEnter_found env id b hermesID _ hp hexR Hget Hdec).
  unfold settleFunc in Htx.
  unfold unconfirmedSchedule, procRun, procStep, callerStep, waiterStep, settleFunc.
  cbn -[isSettling setSettling logCall lookupState resyncState] in Htx |- *.
  rewrite isSettling_logCall, Hfree. settle_cbn. rewrite Hsub. settle_cbn.
  rewrite Htx. settle_cbn.
  assert (Hstop : forall c1 c2 c3,
             stopClosed (logCall c3 (logCall c2 (setSettling id true (logCall c1 st))))
             = stopClosed st) by reflexivity.
  destruct Ho as [-> | [-> Hclosed]]; settle_cbn; rewrite ?Hstop, ?Hclosed; settle_cbn;
    (eexists; eexists; split; [reflexivity |]);
    (split; [reflexivity |]); (split; [reflexivity |]);
    (split; [cbn; rewrite <- !app_assoc; reflexivity |]);
    (split; [rewrite isSettling_logCall; apply isSettling_setSettling |]);
    rewrite lookupState_logCall; apply lookupState_unmarked; exact Hfree.
Qed.

Lemma countCalls_app (f : call -> bool) (l1 l2 : list call) :
  countCalls f (l1 ++ l2) = (countCalls f l1 + countCalls f l2)%nat.
Proof. unfold countCalls. rewrite filter_app, length_app. reflexivity. Qed.

Lemma countCalls_none (f : call -> bool) (l : list call) :
  Forall (fun c => f c = false) l -> countCalls f l = 0%nat.
Proof.
  unfold countCalls. induction 1 as [| c l Hc _ IH]; [reflexivity |].
  rewrite filter_cons. destruct (decide (f c = true)); [congruence | exact IH].
Qed.

Lemma resyncState_counts (env : Collaborators) (id : Identity) (st : settler) :
  exists new : list call,
    calls (snd (resyncState cfg env id st)) = calls st ++ new /\
    countCalls isSubscribe new = 0%nat /\
    countCalls isTransactorCall new = 0%nat /\
    countCalls isStore new = 0%nat.
Proof.
  destruct (resyncState_calls cfg env id st) as [new [Hcalls Hnew]].
  exists (CGetProviderChannel (HermesAddress cfg) id true :: new).
  split; [exact Hcalls |].
  repeat split; apply countCalls_none; (constructor; [reflexivity |]);
    (eapply Forall_impl; [exact Hnew |]); intros c Hc; destruct c; simpl in *; congruence.
Qed.

Lemma countCalls_cons (f : call -> bool) (c : call) (l : list call) :
  countCalls f (c :: l) = ((if f c then 1 else 0) + countCalls f l)%nat.
Proof.
  unfold countCalls. rewrite filter_cons.
  destruct (f c); destruct (decide _); simpl; congruence.
Qed.

Lemma countCalls_nil (f : call -> bool) : countCalls f [] = 0%nat.
Proof. reflexivity. Qed.

(** What one step of a settlement uses up of what it can still do. *)
Lemma procStep_budget (env : Collaborators) (a : action) (p p' : settleProc)
    (st st' : settler) :
  waiterStartsAtSubscription p ->
  procStep cfg env a (p, st) = Some (p', st') ->
  waiterStartsAtSubscription p' /\
  exists new : list call,
    calls st' = calls st ++ new /\
    (countCalls isSubscribe new + subscriptionsLeft p' <= subscriptionsLeft p)%nat /\
    (countCalls isTransactorCall new + submissionsLeft p' <= submissionsLeft p)%nat /\
    (countCalls isStore new + storesLeft p' <= storesLeft p)%nat /\
    (countCalls isTransactorCall new + submissionsLeft p' + subscriptionsLeft p
       <= countCalls isSubscribe new + subscriptionsLeft p' + submissionsLeft p)%nat.
Proof.
  intros Hwf.
  destruct a as [| o]; cbn [procStep fst snd].
  - unfold callerStep.
    unfold waiterStartsAtSubscription, subscriptionsLeft, submissionsLeft, storesLeft in *.
    destruct (caller p) eqn:Hc.
    + destruct (isSettling st (provider (rp p))); intros [= <- <-];
        (split; [simpl; try exact Hwf; exact I |]);
        (exists []); (split; [rewrite app_nil_r; reflexivity |]);
        rewrite countCalls_nil; simpl; rewrite Hwf; lia.
    + intros [= <- <-]. split; [exact Hwf |].
      exists []. split; [rewrite app_nil_r; reflexivity |].
      rewrite countCalls_nil; simpl; rewrite Hwf; lia.
    + destruct (SubscribeToPromiseSettledEvent env _ _); intros [= <- <-];
        (split; [exact I |]);
        (exists [CSubscribe (provider (rp p)) (HermesAddress cfg)]);
        (split; [reflexivity |]);
        rewrite !countCalls_cons, countCalls_nil; simpl; rewrite ?Hwf; lia.
    + destruct (settleFunc cfg env p); intros [= <- <-]; (split; [exact I |]).
      * exists [settleFuncCall cfg p; CCancel (provider (rp p)) (HermesAddress cfg)].
        split; [simpl; rewrite <- app_assoc; reflexivity |].
        rewrite !countCalls_cons, countCalls_nil.
        unfold settleFuncCall. simpl. destruct (beneficiary p), (waiter p); simpl; lia.
      * exists [settleFuncCall cfg p]. split; [reflexivity |].
        rewrite !countCalls_cons, countCalls_nil.
        unfold settleFuncCall. simpl. destruct (beneficiary p), (waiter p); simpl; lia.
    + destruct (waiter p) eqn:Hw; try (destruct (errChClosed p)); try discriminate;
        intros [= <- <-]; (split; [exact I |]);
        (exists []); (split; [rewrite app_nil_r; reflexivity |]);
        rewrite countCalls_nil; simpl; rewrite ?Hw; simpl; lia.
    + discriminate.
  - unfold waiterStep.
    unfold waiterStartsAtSubscription, subscriptionsLeft, submissionsLeft, storesLeft in *.
    destruct (waiter p) eqn:Hw; try discriminate.
    + destruct o as [| [info |] |].
      * destruct (stopClosed st); [| discriminate]. intros [= <- <-].
        split; [simpl; destruct (caller p); try exact I; discriminate |].
        exists []. split; [rewrite app_nil_r; reflexivity |].
        rewrite countCalls_nil; simpl; destruct (caller p); simpl; try lia; discriminate.
      * intros [= <- <-].
        split; [simpl; destruct (caller p); try exact I; discriminate |].
        assert (Hst : (match Store env (provider (rp p)) (HermesAddress cfg) (historyEntry p info) with
                       | Some _ | None =>
                           logCall (CStore (provider (rp p)) (HermesAddress cfg) (historyEntry p info)) st
                       end)
                      = logCall (CStore (provider (rp p)) (HermesAddress cfg) (historyEntry p info)) st)
          by (destruct (Store env _ _ _); reflexivity).
        rewrite Hst.
        destruct (resyncState_counts env (provider (rp p))
                    (logCall (CStore (provider (rp p)) (HermesAddress cfg) (historyEntry p info)) st))
          as (new & Hcalls & H1 & H2 & H3).
        exists (CStore (provider (rp p)) (HermesAddress cfg) (historyEntry p info) :: new).
        split; [rewrite Hcalls; simpl; rewrite <- app_assoc; reflexivity |].
        rewrite !countCalls_cons, H1, H2, H3.
        simpl; destruct (caller p); simpl; try lia; discriminate.
      * intros [= <- <-].
        split; [simpl; destruct (caller p); try exact I; discriminate |].
        exists []. split; [rewrite app_nil_r; reflexivity |].
        rewrite countCalls_nil; simpl; destruct (caller p); simpl; try lia; discriminate.
      * intros [= <- <-].
        split; [simpl; destruct (caller p); try exact I; discriminate |].
        exists []. split; [rewrite app_nil_r; reflexivity |].
        rewrite countCalls_nil; simpl; destruct (caller p); simpl; try lia; discriminate.
    + intros [= <- <-].
      split; [simpl; destruct (caller p); try exact I; discriminate |].
      exists []. split; [rewrite app_nil_r; reflexivity |].
      rewrite countCalls_nil; simpl; destruct (caller p); simpl; try lia; discriminate.
    + intros [= <- <-].
      split; [simpl; destruct (caller p); try exact I; discriminate |].
      exists [CCancel (provider (rp p)) (HermesAddress cfg)].
      split; [reflexivity |].
      rewrite !countCalls_cons, countCalls_nil.
      simpl; destruct (caller p); simpl; try lia; discriminate.
Qed.

Lemma procRun_budget (env : Collaborators) (acts : list action) :
  forall (p p' : settleProc) (st st' : settler),
    waiterStartsAtSubscription p ->
    procRun cfg env acts (p, st) = Some (p', st') ->
    exists new : list call,
      calls st' = calls st ++ new /\
      (countCalls isSubscribe new + subscriptionsLeft p' <= subscriptionsLeft p)%nat /\
      (countCalls isTransactorCall new + submissionsLeft p' <= submissionsLeft p)%nat /\
      (countCalls isStore new + storesLeft p' <= storesLeft p)%nat /\
      (countCalls isTransactorCall new + submissionsLeft p' + subscriptionsLeft p
         <= countCalls isSubscribe new + subscriptionsLeft p' + submissionsLeft p)%nat.
Proof.
  induction acts as [| a rest IH]; intros p p' st st' Hwf; simpl.
  - intros [= <- <-]. exists []. rewrite app_nil_r. unfold countCalls. simpl. repeat split; lia.
  - destruct (procStep cfg env a (p, st)) as [[p1 st1] |] eqn:Hstep; [| discriminate].
    intros Hrun.
    destruct (procStep_budget env a p p1 st st1 Hwf Hstep)
      as (Hwf1 & n1 & Hc1 & A1 & B1 & C1 & D1).
    destruct (IH p1 p' st1 st' Hwf1 Hrun) as (n2 & Hc2 & A2 & B2 & C2 & D2).
    exists (n1 ++ n2). split; [rewrite Hc2, Hc1, <- app_assoc; reflexivity |].
    rewrite !countCalls_app. repeat split; lia.
Qed.

(** X12. Whatever the schedule, one call of [ForceSettle] or of
    [SettleWithBeneficiary] subscribes to the chain at most once, calls the
    transactor at most once and only after it has subscribed, and stores at
    most one history entry. *)
Theorem settle_calls_at_most_once (env : Collaborators) (id : Identity)
    (b : option Address) (hermesID : Address) (st : settler)
    (acts : list action) (p' : settleProc) (st' : settler) :
  procRun cfg env acts (requestSettle env id b hermesID st) = Some (p', st') ->
  let new := newCalls st st' in
  (countCalls isSubscribe new <= 1)%nat /\
  (countCalls isTransactorCall new <= countCalls isSubscribe new)%nat /\
  (countCalls isStore new <= 1)%nat.
Proof.
  rewrite requestSettle_loadAndEnter.
  destruct (loadAndEnter_routed env id b hermesID st) as [_ Hc0].
  assert (Hleft : waiterStartsAtSubscription (fst (loadAndEnter env id b hermesID st)) /\
                  (subscriptionsLeft (fst (loadAndEnter env id b hermesID st)) <= 1 /\
                   storesLeft (fst (loadAndEnter env id b hermesID st)) <= 1 /\
                   submissionsLeft (fst (loadAndEnter env id b hermesID st))
                     <= subscriptionsLeft (fst (loadAndEnter env id b hermesID st)))%nat).
  { unfold loadAndEnter.
    destruct (PromiseGet env id hermesID) as [hp [e |]];
      [destruct (isErrNotFound e) | destruct (hexDecodeString (hpR hp))];
      cbn; (split; [first [reflexivity | exact I] | lia]). }
  destruct (loadAndEnter env id b hermesID st) as [p0 st0]. simpl in Hc0, Hleft.
  destruct Hleft as [Hwf Hleft].
  intros Hrun new.
  destruct (procRun_budget env acts p0 p' st0 st' Hwf Hrun) as (n & Hc & A & B & C & D).
  assert (Hnew : new = CPromiseGet id hermesID :: n).
  { subst new. apply newCalls_app. rewrite Hc, Hc0, <- app_assoc. reflexivity. }
  assert (Hle : (subscriptionsLeft p' <= submissionsLeft p')%nat)
    by (unfold subscriptionsLeft, submissionsLeft; destruct (caller p'); lia).
  rewrite Hnew, !countCalls_cons. cbn. lia.
Qed.

End SettlePaths.

Lemma settle_without_promise_witness :
  caller (fst (ForceSettle Faults.noPromise "p" Fixtures.hermes
                 (Fixtures.holding (stateOf 100 0 60 false true))))
  = Returned (Some ErrNothingToSettle).
Proof.
  destruct (settle_without_promise Fixtures.config Faults.noPromise "p" None Fixtures.hermes
              (Fixtures.holding (stateOf 100 0 60 false true)))
    as [(err & Hret & Herr) _].
  - left. discriminate.
  - rewrite (Herr eq_refl) in Hret. exact Hret.
Defined.

Lemma settle_refused_changes_nothing_witness :
  exists p' : settleProc,
    procRun Fixtures.config Fixtures.env [ACaller]
      (ForceSettle Fixtures.env "p" Fixtures.hermes
         (Fixtures.holding (stateOf 100 0 60 true true)))
    = Some (p', logCall (CPromiseGet "p" Fixtures.hermes)
                  (Fixtures.holding (stateOf 100 0 60 true true))) /\
    caller p' = Returned (Some ErrAlreadyInProgress).
Proof.
  destruct (settle_refused_changes_nothing Fixtures.config Fixtures.env "p" None
              Fixtures.hermes (Fixtures.holding (stateOf 100 0 60 true true))
              (Fixtures.stored 60) [x0a; xff])
    as (p' & Hrun & Hret & _); try (vm_compute; reflexivity).
  exists p'. split; assumption.
Defined.

Lemma settle_subscription_fails_witness :
  exists (p' : settleProc) (st' : settler),
    procRun Fixtures.config Faults.noSubscription [ACaller; ACaller; ACaller]
      (ForceSettle Faults.noSubscription "p" Fixtures.hermes
         (Fixtures.holding (stateOf 100 0 60 false true))) = Some (p', st') /\
    caller p' = Returned (Some (ErrExternal "no connection")) /\
    isSettling st' "p" = false.
Proof.
  destruct (settle_subscription_fails Fixtures.config Faults.noSubscription "p" None
              Fixtures.hermes (Fixtures.holding (stateOf 100 0 60 false true))
              (Fixtures.stored 60) [x0a; xff] (ErrExternal "no connection"))
    as (p' & st' & Hrun & Hret & _ & Hfree & _); try (vm_compute; reflexivity).
  exists p', st'. repeat split; assumption.
Defined.

Lemma settle_submission_fails_witness :
  exists (p1 : settleProc) (st1 : settler),
    procRun Fixtures.config Faults.noTransactor failedSubmission
      (ForceSettle Faults.noTransactor "p" Fixtures.hermes
         (Fixtures.holding (stateOf 100 0 60 false true))) = Some (p1, st1) /\
    caller p1 = Returned (Some (ErrExternal "refused")) /\
    isSettling st1 "p" = true.
Proof.
  destruct (settle_submission_fails Fixtures.config Faults.noTransactor "p" None
              Fixtures.hermes (Fixtures.holding (stateOf 100 0 60 false true))
              (Fixtures.stored 60) [x0a; xff] (ErrExternal "refused"))
    as (p1 & st1 & Hrun & Hret & _ & Hbusy & _); try (vm_compute; reflexivity).
  exists p1, st1. repeat split; assumption.
Defined.

Lemma settle_submission_fails_then_timeout_witness :
  exists (p' : settleProc) (st' : settler),
    procRun Fixtures.config Faults.noTransactor (failedSubmission ++ [AWaiter WTimeout])
      (SettleWithBeneficiary Faults.noTransactor "p" 5%N Fixtures.hermes
         (Fixtures.holding (stateOf 100 0 60 false true))) = Some (p', st') /\
    waiter p' = Sending /\
    isSettling st' "p" = true.
Proof.
  destruct (settle_submission_fails_then_timeout Fixtures.config Faults.noTransactor "p"
              (Some 5%N) Fixtures.hermes (Fixtures.holding (stateOf 100 0 60 false true))
              (Fixtures.stored 60) [x0a; xff] (ErrExternal "refused"))
    as (p' & st' & Hrun & _ & Hw & Hbusy & _); try (vm_compute; reflexivity).
  exists p', st'. repeat split; assumption.
Defined.

Lemma settle_ends_without_event_witness :
  exists (p' : settleProc) (st' : settler),
    procRun Fixtures.config Fixtures.env (unconfirmedSchedule (WSink None))
      (ForceSettle Fixtures.env "p" Fixtures.hermes
         (Fixtures.holding (stateOf 100 0 60 false true))) = Some (p', st') /\
    caller p' = Returned None /\
    isSettling st' "p" = false.
Proof.
  destruct (settle_ends_without_event Fixtures.config Fixtures.env "p" None
              Fixtures.hermes (Fixtures.holding (stateOf 100 0 60 false true))
              (Fixtures.stored 60) [x0a; xff] (WSink None))
    as (p' & st' & Hrun & Hret & _ & _ & Hfree & _);
    try (vm_compute; reflexivity); [left; reflexivity |].
  exists p', st'. repeat split; assumption.
Defined.

Lemma settle_calls_at_most_once_witness :
  (countCalls isTransactorCall
     [CPromiseGet "p" Fixtures.hermes; CSubscribe "p" Fixtures.hermes;
      CSettleAndRebalance Fixtures.hermes "p" (withR (Fixtures.promiseOf 60) [x0a; xff])]
   <= 1)%nat.
Proof.
  pose proof (settle_calls_at_most_once Fixtures.config Fixtures.env "p" None Fixtures.hermes
                NewHermesPromiseSettler [ACaller; ACaller; ACaller; ACaller]
                (setCaller (setWaiter (enterSettle
                   {| provider := "p"; promise := withR (Fixtures.promiseOf 60) [x0a; xff] |}
                   None) Selecting) AtAwait)
                (logCall (CSettleAndRebalance Fixtures.hermes "p"
                            (withR (Fixtures.promiseOf 60) [x0a; xff]))
                   (logCall (CSubscribe "p" Fixtures.hermes)
                      (setSettling "p" true
                         (logCall (CPromiseGet "p" Fixtures.hermes) NewHermesPromiseSettler))))
                eq_refl) as (H1 & H2 & _).
  exact (Nat.le_trans _ _ _ H2 H1).
Defined.

(* ===================================================================== *)
(** ** When the policy never asks for a settlement *)
(* ===================================================================== *)

Section PolicyEdges.

(** Rounding keeps the sign. *)
Lemma binary_round_aux_sign (prec emax : Z) (sx : bool) (mx ex : Z) (lx : location) :
  match binary_round_aux prec emax sx mx ex lx with
  | S754_zero s | S754_infinity s | S754_finite s _ _ => s = sx
  | S754_nan => True
  end.
Proof.
  unfold binary_round_aux.
  destruct (shr_fexp prec emax mx ex lx) as [mrs' e'].
  destruct (shr_fexp prec emax _ e' loc_Exact) as [mrs'' e''].
  destruct (shr_m mrs''); try reflexivity; try exact I.
  destruct (e'' <=? _); reflexivity.
Qed.

Lemma of_uint64_notNegative (x : Z) : 0 <= x -> notNegative (F64.of_uint64 x).
Proof.
  intros Hx. pose proof (of_uint64_not_nan x) as Hnan. revert Hnan.
  unfold F64.of_uint64, binary_normalize.
  destruct x as [| p | p]; [intros _; exact I | | lia].
  unfold binary_round. destruct (shl_align _ _ _) as [mz ez].
  pose proof (binary_round_aux_sign F64.prec F64.emax false (Z.pos mz) ez loc_Exact) as Hs.
  destruct (binary_round_aux F64.prec F64.emax false (Z.pos mz) ez loc_Exact);
    simpl; intros Hnan; try exact I; try exact Hs. congruence.
Qed.

Lemma safeSub_nonneg (a b : Z) : 0 <= safeSub a b.
Proof. unfold safeSub. destruct (a <? b) eqn:H; [lia |]. apply Z.ltb_ge in H. lia. Qed.

(** A product with a factor that is not positive is not positive. *)
Lemma mul_notPositive (t y : F64.float64) :
  notPositive t -> notNegative y -> notPositive (F64.mul t y).
Proof.
  unfold F64.mul, SFmul.
  destruct t as [st | st | | st mt et], y as [sy | sy | | sy my ey];
    simpl; intros Ht Hy; try exact I; try contradiction; subst; try reflexivity.
  match goal with
  | |- notPositive (binary_round_aux ?p ?e ?sg ?m ?x ?l) =>
      pose proof (binary_round_aux_sign p e sg m x l) as Hs;
      destruct (binary_round_aux p e sg m x l)
  end; simpl; try exact I; exact Hs.
Qed.

(** Nothing that is not negative is below something that is not positive. *)
Lemma ltb_notNegative_notPositive (u t : F64.float64) :
  notNegative u -> notPositive t -> F64.ltb u t = false.
Proof.
  unfold F64.ltb, SFltb.
  destruct u as [su | su | | su mu eu], t as [st | st | | st mt et];
    simpl; intros Hu Ht; try contradiction; subst; reflexivity.
Qed.

Lemma not_above_zero_notPositive (t : F64.float64) :
  F64.ltb (S754_zero false) t = false -> notPositive t.
Proof.
  unfold F64.ltb, SFltb. destruct t as [st | st | | st mt et]; simpl; try (intros _; exact I);
    destruct st; try reflexivity; discriminate.
Qed.

(** X13. A provider with nothing unsettled is never asked to settle,
    whatever the threshold, the channel and the flags: when the unsettled
    balance is zero, [needsSettling] is false. *)
Theorem needsSettling_nothing_unsettled (ss : settlementState) (threshold : F64.float64) :
  unsettledBalance ss = 0 -> needsSettling ss threshold = false.
Proof.
  intros Hzero. rewrite needsSettling_eq, Hzero.
  destruct (F64.ltb (F64.of_uint64 0) _) eqn:Hlt;
    [destruct (registered ss), (settleInProgress ss); reflexivity |].
  rewrite (ltb_notNegative_notPositive (F64.of_uint64 (balance ss)) _).
  - destruct (registered ss), (settleInProgress ss); reflexivity.
  - apply of_uint64_notNegative, safeSub_nonneg.
  - apply not_above_zero_notPositive. exact Hlt.
Qed.

(** X14. A threshold that is zero, negative or not a number switches the
    automatic settlement off: with such a threshold [needsSettling] is false
    for every state. *)
Theorem needsSettling_threshold_not_positive (ss : settlementState)
    (threshold : F64.float64) :
  notPositive threshold -> needsSettling ss threshold = false.
Proof.
  intros Ht. rewrite needsSettling_eq.
  assert (HT : notPositive (F64.mul threshold (F64.of_uint64 (availableBalance ss)))).
  { apply mul_notPositive; [exact Ht |]. apply of_uint64_notNegative.
    unfold availableBalance, U64.add, U64.wrap.
    apply Z.mod_pos_bound. reflexivity. }
  rewrite (ltb_notNegative_notPositive (F64.of_uint64 (balance ss)) _
             (of_uint64_notNegative _ (safeSub_nonneg _ _)) HT).
  destruct (registered ss), (settleInProgress ss), (F64.ltb _ _); reflexivity.
Qed.

End PolicyEdges.

Lemma needsSettling_nothing_unsettled_witness :
  needsSettling (stateOf 40 60 60 false true) F64.half = false.
Proof. apply needsSettling_nothing_unsettled. vm_compute. reflexivity. Defined.

Lemma needsSettling_threshold_not_positive_witness :
  needsSettling (stateOf 100 0 60 false true) (S754_zero false) = false.
Proof. apply needsSettling_threshold_not_positive. exact I. Defined.

(* ===================================================================== *)
(** ** The connection endpoint *)
(* ===================================================================== *)

Section ConnectionEndpoint.

Import Endpoints.

Variable env : Env.

(** X15. [Create] asks the manager to connect only when the body was
    decoded into a request that passes validation, the registry answered
    without error for the consumer with a status other than unregistered
    and registration error, and the repository returned a proposal; the
    connection is then asked for that consumer, hermes and proposal, with
    the options [getConnectOptions] derives from the request. It asks at
    most once. *)
Theorem create_connects_only_when_allowed (body : string)
    (consumerID hermesID proposal : string) (params : ConnectParams) :
  CallConnect consumerID hermesID proposal params ∈ snd (Create env body) ->
  exists cr : ConnectionCreateRequest,
    toConnectionRequest env body = inl cr /\
    ValidateHasErrors env cr = false /\
    snd (GetRegistrationStatus env (ConsumerID cr)) = None /\
    fst (GetRegistrationStatus env (ConsumerID cr)) <> Unregistered /\
    fst (GetRegistrationStatus env (ConsumerID cr)) <> RegistrationError /\
    Proposal env {| ProposalProviderID := ProviderID cr;
                    ProposalServiceType := ServiceType cr |} = (Some proposal, None) /\
    consumerID = ConsumerID cr /\ hermesID = HermesID cr /\
    params = getConnectOptions env cr /\
    length (filter (fun c => isCallConnect c = true) (snd (Create env body))) = 1%nat.
Proof.
  unfold Create, Status.
  destruct (toConnectionRequest env body) as [cr | err] eqn:Hreq; [| inversion 1].
  destruct (ValidateHasErrors env cr) eqn:Hval; [inversion 1 |].
  destruct (GetRegistrationStatus env (ConsumerID cr)) as [status [err |]] eqn:Hreg;
    [inversion 1 |].
  destruct (Proposal env {| ProposalProviderID := ProviderID cr;
                            ProposalServiceType := ServiceType cr |})
    as [[prop |] [err |]] eqn:Hprop;
    try (destruct (Connect env (ConsumerID cr) (HermesID cr) prop (getConnectOptions env cr))
           as [err' |] eqn:Hconn);
    destruct status; simpl; intros H;
    repeat (apply elem_of_cons in H as [H | H]);
    try (inversion H; fail);
    injection H as H1 H2 H3 H4; subst consumerID hermesID proposal params;
    exists cr; rewrite Hreg, Hprop; simpl;
    repeat split; try reflexivity; try discriminate; exact Hval.
Qed.

(** X16. [Create] answers with the header 201 followed by the status of
    the connection exactly when the manager accepted the connection. In
    every other case it writes one message and nothing else: the validation
    errors, or an error with a code between 400 and 599; it then writes no
    success header and does not ask for the status. *)
Theorem create_answers_once (body : string) :
  let writes := fst (Create env body) in
  let calls := snd (Create env body) in
  (writes = [WriteHeader StatusCreated; WriteAsJSON (ManagerStatus env)] /\
   exists c h p o, calls = [CallConnect c h p o; CallStatus] /\ Connect env c h p o = None)
  \/
  ((exists w, writes = [w] /\
      (w = SendValidationErrorMessage \/
       exists err code, w = SendError err code /\ 400 <= code < 600)) /\
   ~ CallStatus ∈ calls /\
   forall c h p o, CallConnect c h p o ∈ calls -> Connect env c h p o <> None).
Proof.
  unfold Create, Status.
  assert (Hnil : forall c : managerCall, ~ c ∈ @nil managerCall) by (intros c H; inversion H).
  destruct (toConnectionRequest env body) as [cr | err] eqn:Hreq.
  2: { right. split; [eexists; split; [reflexivity |]; right; eexists; eexists;
                      split; [reflexivity | unfold StatusBadRequest; lia] |].
       split; [apply Hnil | intros c h p o H; inversion H]. }
  destruct (ValidateHasErrors env cr) eqn:Hval.
  { right. split; [eexists; split; [reflexivity |]; left; reflexivity |].
    split; [apply Hnil | intros c h p o H; inversion H]. }
  destruct (GetRegistrationStatus env (ConsumerID cr)) as [status [err |]] eqn:Hreg.
  { right. split; [eexists; split; [reflexivity |]; right; eexists; eexists;
                   split; [reflexivity | unfold StatusInternalServerError; lia] |].
    split; [apply Hnil | intros c h p o H; inversion H]. }
  assert (Hgo :
    let r := match Proposal env {| ProposalProviderID := ProviderID cr;
                                   ProposalServiceType := ServiceType cr |} with
             | (_, Some err) => ([SendError err StatusInternalServerError], [])
             | (None, None) => ([SendError ErrNoProposals StatusBadRequest], [])
             | (Some proposal, None) =>
                 match Connect env (ConsumerID cr) (HermesID cr) proposal
                         (getConnectOptions env cr) with
                 | Some err =>
                     ([SendError err
                         match err with
                         | ErrAlreadyExists => StatusConflict
                         | ErrConnectionCancelled => statusConnectCancelled
                         | _ => StatusInternalServerError
                         end],
                      [CallConnect (ConsumerID cr) (HermesID cr) proposal
                         (getConnectOptions env cr)])
                 | None =>
                     ([WriteHeader StatusCreated; WriteAsJSON (ManagerStatus env)],
                      [CallConnect (ConsumerID cr) (HermesID cr) proposal
                         (getConnectOptions env cr); CallStatus])
                 end
             end in
    (fst r = [WriteHeader StatusCreated; WriteAsJSON (ManagerStatus env)] /\
     exists c h p o, snd r = [CallConnect c h p o; CallStatus] /\ Connect env c h p o = None)
    \/
    ((exists w, fst r = [w] /\
        (w = SendValidationErrorMessage \/
         exists err code, w = SendError err code /\ 400 <= code < 600)) /\
     ~ CallStatus ∈ snd r /\
     forall c h p o, CallConnect c h p o ∈ snd r -> Connect env c h p o <> None)).
  { destruct (Proposal env _) as [[prop |] [err |]]; simpl.
    - right. split; [eexists; split; [reflexivity |]; right; eexists; eexists;
                     split; [reflexivity | unfold StatusInternalServerError; lia] |].
      split; [apply Hnil | intros c h p o H; inversion H].
    - destruct (Connect env (ConsumerID cr) (HermesID cr) prop (getConnectOptions env cr))
        as [err |] eqn:Hconn; simpl.
      + right. split.
        * eexists. split; [reflexivity |]. right. eexists. eexists.
          split; [reflexivity |].
          destruct err; unfold StatusConflict, statusConnectCancelled,
            StatusInternalServerError; lia.
        * split.
          -- intros H. apply list_elem_of_singleton in H. discriminate.
          -- intros c h p o H. apply list_elem_of_singleton in H.
             injection H as H1 H2 H3 H4. subst. rewrite Hconn. discriminate.
      + left. split; [reflexivity |]. eauto 10.
    - right. split; [eexists; split; [reflexivity |]; right; eexists; eexists;
                     split; [reflexivity | unfold StatusInternalServerError; lia] |].
      split; [apply Hnil | intros c h p o H; inversion H].
    - right. split; [eexists; split; [reflexivity |]; right; eexists; eexists;
                     split; [reflexivity | unfold StatusBadRequest; lia] |].
      split; [apply Hnil | intros c h p o H; inversion H]. }
  destruct status; simpl; try exact Hgo;
    (right; split; [eexists; split; [reflexivity |]; right; eexists; eexists;
                    split; [reflexivity | unfold StatusExpectationFailed; lia] |];
     split; [apply Hnil | intros c h p o H; inversion H]).
Qed.

Lemma getConnectOptions_dns (cr : ConnectionCreateRequest) :
  DNSOptionAuto env <> "" -> ParamDNS (getConnectOptions env cr) <> "".
Proof.
  intros Hauto. unfold getConnectOptions. simpl.
  destruct (String.eqb (DNS (Options cr)) "") eqn:He; [exact Hauto |].
  apply String.eqb_neq. exact He.
Qed.

(** X17. [Create] never asks for a connection with an empty DNS option:
    when the request leaves it empty, the automatic option takes its place
    (the automatic option itself not being the empty string). *)
Theorem create_connects_with_dns (body : string)
    (consumerID hermesID proposal : string) (params : ConnectParams) :
  DNSOptionAuto env <> "" ->
  CallConnect consumerID hermesID proposal params ∈ snd (Create env body) ->
  ParamDNS params <> "" /\
  forall cr, toConnectionRequest env body = inl cr ->
    ParamDisableKillSwitch params = DisableKillSwitch (Options cr) /\
    (DNS (Options cr) <> "" -> ParamDNS params = DNS (Options cr)) /\
    (DNS (Options cr) = "" -> ParamDNS params = DNSOptionAuto env).
Proof.
  intros Hauto. unfold Create, Status.
  destruct (toConnectionRequest env body) as [cr | err] eqn:Hreq; [| inversion 1].
  destruct (ValidateHasErrors env cr); [inversion 1 |].
  destruct (GetRegistrationStatus env (ConsumerID cr)) as [status [err |]]; [inversion 1 |].
  destruct (Proposal env {| ProposalProviderID := ProviderID cr;
                            ProposalServiceType := ServiceType cr |})
    as [[prop |] [err |]];
    try (destruct (Connect env (ConsumerID cr) (HermesID cr) prop (getConnectOptions env cr))
           as [err' |]);
    destruct status; simpl; intros H;
    repeat (apply elem_of_cons in H as [H | H]);
    try (inversion H; fail);
    injection H as H1 H2 H3 H4; subst consumerID hermesID proposal params;
    (split; [apply getConnectOptions_dns, Hauto |]);
    intros cr0 [= <-]; unfold getConnectOptions; simpl;
    (split; [reflexivity |]);
    destruct (String.eqb (DNS (Options cr)) "") eqn:He;
    [apply String.eqb_eq in He | apply String.eqb_neq in He | apply String.eqb_eq in He
     | apply String.eqb_neq in He | apply String.eqb_eq in He | apply String.eqb_neq in He
     | apply String.eqb_eq in He | apply String.eqb_neq in He];
    split; intros Hd; congruence.
Qed.

End ConnectionEndpoint.

Lemma create_connects_only_when_allowed_witness :
  exists cr : Endpoints.ConnectionCreateRequest,
    Endpoints.toConnectionRequest Endpoints.sampleEnv "{}" = inl cr /\
    Endpoints.ConsumerID cr = "0xconsumer".
Proof.
  destruct (create_connects_only_when_allowed Endpoints.sampleEnv "{}"
              "0xconsumer" "0xhermes" "proposal"
              {| Endpoints.ParamDisableKillSwitch := true; Endpoints.ParamDNS := "auto" |})
    as (cr & Hreq & _ & _ & _ & _ & _ & Hid & _).
  - vm_compute. left.
  - exists cr. split; [exact Hreq | symmetry; exact Hid].
Defined.

Lemma create_connects_with_dns_witness :
  Endpoints.ParamDNS
    {| Endpoints.ParamDisableKillSwitch := true; Endpoints.ParamDNS := "auto" |} <> "".
Proof.
  apply (create_connects_with_dns Endpoints.sampleEnv "{}"
           "0xconsumer" "0xhermes" "proposal"
           {| Endpoints.ParamDisableKillSwitch := true; Endpoints.ParamDNS := "auto" |}).
  - vm_compute. discriminate.
  - vm_compute. left.
Defined.

(* ===================================================================== *)
(** ** The list of sessions *)
(* ===================================================================== *)

Section SessionList.

Import Contract.

Lemma mapSessions_from {A B : Type} (f : A -> B) (sessions : list A) :
  forall (done : list B) (rest : list B),
    length rest = length sessions ->
    snd (fold_left (fun (acc : nat * list B) (se : A) =>
                      (S (fst acc), <[fst acc := f se]> (snd acc)))
                   sessions (length done, done ++ rest))
    = done ++ map f sessions.
Proof.
  induction sessions as [| se sessions IH]; intros done rest Hlen.
  - destruct rest; [reflexivity | discriminate].
  - destruct rest as [| r rest]; [discriminate |]. simpl in Hlen.
    cbn [fold_left fst snd map].
    replace (<[length done := f se]> (done ++ r :: rest))
      with ((done ++ [f se]) ++ rest).
    + replace (S (length done)) with (length (done ++ [f se]))
        by (rewrite length_app; simpl; lia).
      rewrite IH by lia. rewrite <- app_assoc. reflexivity.
    + rewrite insert_app_r_alt by lia.
      replace (length done - length done)%nat with 0%nat by lia.
      simpl. rewrite <- app_assoc. reflexivity.
Qed.

(** X18. [mapSessions] returns the images of the sessions under [f], one
    for each session and in the order of the sessions: no zero value of the
    array it allocates is left in the result. *)
Theorem mapSessions_is_map {A B : Type} (zero : B) (sessions : list A) (f : A -> B) :
  mapSessions zero sessions f = map f sessions /\
  length (mapSessions zero sessions f) = length sessions /\
  forall i : nat, mapSessions zero sessions f !! i = f <$> sessions !! i.
Proof.
  assert (H : mapSessions zero sessions f = map f sessions).
  { unfold mapSessions.
    apply (mapSessions_from f sessions [] (replicate (length sessions) zero)).
    apply length_replicate. }
  rewrite H. split; [reflexivity |]. split; [apply length_map |].
  intros i. apply list_lookup_fmap.
Qed.

End SessionList.

(* ===================================================================== *)
(** ** The detection of the country *)
(* ===================================================================== *)

Section CountryDetection.

Import Location.

(** X19. [DetectCountry] returns the empty country with every error; it
    returns no error only when both resolvers answer without one, and then
    the country of the location resolver for the IP of the IP resolver. The
    location resolver is asked only after the IP resolver answered without
    error, for the IP it answered, and after it. *)
Theorem DetectCountry_fails_closed (env : Env) :
  let country := fst (fst (DetectCountry env)) in
  let err := snd (fst (DetectCountry env)) in
  let lookups := snd (DetectCountry env) in
  (err <> None -> country = "") /\
  (err = None ->
     snd (GetPublicIP env) = None /\
     ResolveCountry env (fst (GetPublicIP env)) = (country, None)) /\
  (snd (GetPublicIP env) <> None ->
     err = snd (GetPublicIP env) /\ lookups = [AskPublicIP]) /\
  (snd (GetPublicIP env) = None ->
     err = snd (ResolveCountry env (fst (GetPublicIP env))) /\
     lookups = [AskPublicIP; AskCountry (fst (GetPublicIP env))]).
Proof.
  unfold DetectCountry.
  destruct (GetPublicIP env) as [ip [e |]]; simpl.
  - repeat split; try reflexivity; try discriminate; try contradiction; congruence.
  - destruct (ResolveCountry env ip) as [country [e |]]; simpl;
      repeat split; try reflexivity; try discriminate; try contradiction; congruence.
Qed.

End CountryDetection.

(* ===================================================================== *)
(** ** The session handlers of a provider *)
(* ===================================================================== *)

Section SessionHandlers.

Import Service.


End SessionHandlers.

(* ===================================================================== *)
(** ** The command line *)
(* ===================================================================== *)

Section CommandLine.

Import Cli.

Variable c : Client.

Lemma identities_no_connect (line a b : string) :
  ~ CallConnect a b ∈ identities c line.
Proof.
  unfold identities. intros H.
  destruct (String.length (TrimSpace (sliceFrom 10 line)) =? 0)%nat.
  { apply list_elem_of_singleton in H. discriminate. }
  destruct (String.eqb (TrimSpace (sliceFrom 10 line)) "list").
  { destruct (GetIdentities c) as [ids [e |]].
    - repeat (apply elem_of_cons in H as [H | H]); try discriminate. inversion H.
    - apply elem_of_cons in H as [H | H]; [discriminate |].
      apply list_elem_of_fmap in H as (x & Hx & _). discriminate. }
  destruct (String.eqb (TrimSpace (sliceFrom 10 line)) "new").
  { destruct (NewIdentity c) as [addr [e |]];
      repeat (apply elem_of_cons in H as [H | H]); try discriminate; inversion H. }
  inversion H.
Qed.

(** X21. A line makes the client connect only when, trimmed, it begins
    with [connect] and what follows has exactly two fields. The provider
    is the second field; the consumer is the first, or, when the first is
    [new], the address of the identity the client then created without
    error. The client is asked to connect at most once for a line. *)
Theorem dials_only_on_connect (line a b : string) :
  isASCII line = true ->
  CallConnect a b ∈ handleActions c line ->
  HasPrefix (TrimSpace line) "connect" = true /\
  exists x : string,
    Fields (TrimSpace (sliceFrom 7 (TrimSpace line))) = [x; b] /\
    (if String.eqb x "new" then NewIdentity c = (a, None) else a = x) /\
    length (filter (fun e => isCallConnect e = true) (handleActions c line)) = 1%nat.
Proof.
  intros _. unfold handleActions.
  destruct (HasPrefix (TrimSpace line) "connect") eqn:Hprefix.
  - unfold connect.
    destruct (String.length (TrimSpace (sliceFrom 7 (TrimSpace line))) =? 0)%nat.
    { intros H. apply list_elem_of_singleton in H. discriminate. }
    destruct (Fields (TrimSpace (sliceFrom 7 (TrimSpace line))))
      as [| x [| y [| z rest]]];
      try (intros H; apply list_elem_of_singleton in H; discriminate).
    destruct (String.eqb x "new") eqn:Hnew.
    + destruct (NewIdentity c) as [addr [e |]];
        [intros H; repeat (apply elem_of_cons in H as [H | H]); try discriminate;
         inversion H |].
      destruct (Connect c addr y); intros H;
        repeat (apply elem_of_cons in H as [H | H]); try discriminate;
        try (inversion H; fail);
        injection H as -> ->;
        (split; [reflexivity |]); exists x; rewrite Hnew;
        repeat split; reflexivity.
    + destruct (Connect c x y); intros H;
        repeat (apply elem_of_cons in H as [H | H]); try discriminate;
        try (inversion H; fail);
        injection H as -> ->;
        (split; [reflexivity |]); exists x; rewrite Hnew;
        repeat split; reflexivity.
  - intros H. exfalso.
    destruct (String.eqb (TrimSpace line) "exit" || String.eqb (TrimSpace line) "quit").
    { apply list_elem_of_singleton in H. discriminate. }
    assert (Hhelp : ~ CallConnect a b ∈ help).
    { intros H'. unfold help in H'.
      repeat (apply elem_of_cons in H' as [H' | H']); try discriminate. inversion H'. }
    destruct (String.eqb (TrimSpace line) "help"); [exact (Hhelp H) |].
    destruct (String.eqb (TrimSpace line) "status").
    { unfold showStatus in H. destruct (Status c) as [[st sid] [e |]];
        repeat (apply elem_of_cons in H as [H | H]); try discriminate; inversion H. }
    destruct (String.eqb (TrimSpace line) "disconnect").
    { unfold disconnect in H. destruct (Disconnect c);
        repeat (apply elem_of_cons in H as [H | H]); try discriminate; inversion H. }
    destruct (HasPrefix (TrimSpace line) "identities").
    { exact (identities_no_connect _ _ _ H). }
    destruct (0 <? String.length (TrimSpace line))%nat; [exact (Hhelp H) | inversion H].
Qed.

End CommandLine.

Section CommandLineWords.

Import Cli.

Lemma list_ascii_of_string_app (s1 s2 : string) :
  list_ascii_of_string (String.append s1 s2)
  = list_ascii_of_string s1 ++ list_ascii_of_string s2.
Proof.
  induction s1 as [| ch s1 IH]; simpl; [reflexivity | rewrite IH; reflexivity].
Qed.

Lemma string_of_list_ascii_app (l1 l2 : list ascii) :
  string_of_list_ascii (l1 ++ l2)
  = String.append (string_of_list_ascii l1) (string_of_list_ascii l2).
Proof.
  induction l1 as [| ch l1 IH]; simpl; [reflexivity | rewrite IH; reflexivity].
Qed.

Lemma substring_all (s : string) : String.substring 0 (String.length s) s = s.
Proof.
  induction s as [| ch s IH]; simpl; [reflexivity | rewrite IH; reflexivity].
Qed.

Lemma prefix_append (p s : string) : String.prefix p (String.append p s) = true.
Proof.
  induction p as [| ch p IH]; simpl.
  - destruct s; reflexivity.
  - destruct (ascii_dec ch ch) as [_ | Hne]; [exact IH | congruence].
Qed.

Lemma trimLeft_spaces (ws l : list ascii) :
  forallb isSpace ws = true -> trimLeft (ws ++ l) = trimLeft l.
Proof.
  induction ws as [| w ws IH]; simpl; [reflexivity |].
  intros H. apply andb_prop in H as [Hw Hws]. rewrite Hw. exact (IH Hws).
Qed.

Lemma trimLeft_word (l : list ascii) : beginsWithWord l -> trimLeft l = l.
Proof.
  destruct l as [| ch l]; simpl; [intros [] | intros ->; reflexivity].
Qed.

Lemma beginsWithWord_app (l1 l2 : list ascii) :
  beginsWithWord l1 -> beginsWithWord (l1 ++ l2).
Proof.
  destruct l1 as [| ch l1]; simpl; [intros [] | trivial].
Qed.

Lemma word_begins (l : list ascii) :
  l <> [] -> forallb (fun ch => negb (isSpace ch)) l = true -> beginsWithWord l.
Proof.
  destruct l as [| ch l]; [congruence |]. simpl. intros _ H.
  apply andb_prop in H as [H _]. apply negb_true_iff in H. exact H.
Qed.

Lemma word_rev_begins (l : list ascii) :
  l <> [] -> forallb (fun ch => negb (isSpace ch)) l = true -> beginsWithWord (rev l).
Proof.
  intros Hne Hl. apply word_begins.
  - intros H. apply Hne. rewrite <- (rev_involutive l), H. reflexivity.
  - rewrite forallb_forall in *. intros x Hx. apply Hl. apply in_rev. exact Hx.
Qed.

(** The trimming of [ws0 ++ core ++ ws3] is [core], when [core] begins and
    ends with a character that is no white space. *)
Lemma trim_core (ws0 core ws3 : list ascii) :
  forallb isSpace ws0 = true -> forallb isSpace ws3 = true ->
  beginsWithWord core -> beginsWithWord (rev core) ->
  rev (trimLeft (rev (trimLeft (ws0 ++ core ++ ws3)))) = core.
Proof.
  intros H0 H3 Hb He.
  rewrite (trimLeft_spaces ws0 _ H0).
  rewrite (trimLeft_word (core ++ ws3)) by (apply beginsWithWord_app; exact Hb).
  rewrite rev_app_distr.
  rewrite trimLeft_spaces
    by (rewrite forallb_forall in *; intros x Hx; apply H3, in_rev; exact Hx).
  rewrite (trimLeft_word _ He). apply rev_involutive.
Qed.

Lemma fieldsFrom_word (x : list ascii) :
  forallb (fun ch => negb (isSpace ch)) x = true ->
  forall cur l, fieldsFrom cur (x ++ l) = fieldsFrom (rev x ++ cur) l.
Proof.
  induction x as [| ch x IH]; intros Hx cur l; [reflexivity |].
  simpl in Hx. apply andb_prop in Hx as [Hch Hx]. apply negb_true_iff in Hch.
  simpl. rewrite Hch. rewrite (IH Hx). rewrite <- app_assoc. reflexivity.
Qed.

Lemma fieldsFrom_spaces (ws l : list ascii) :
  forallb isSpace ws = true -> fieldsFrom [] (ws ++ l) = fieldsFrom [] l.
Proof.
  induction ws as [| w ws IH]; simpl; [reflexivity |].
  intros H. apply andb_prop in H as [Hw Hws]. rewrite Hw. exact (IH Hws).
Qed.

Lemma fieldsFrom_two (x ws y : list ascii) :
  x <> [] -> y <> [] -> ws <> [] ->
  forallb (fun ch => negb (isSpace ch)) x = true ->
  forallb (fun ch => negb (isSpace ch)) y = true ->
  forallb isSpace ws = true ->
  fieldsFrom [] (x ++ ws ++ y) = [string_of_list_ascii x; string_of_list_ascii y].
Proof.
  intros Hx Hy Hws Hxw Hyw Hsp.
  rewrite (fieldsFrom_word x Hxw). rewrite app_nil_r.
  destruct ws as [| w ws]; [congruence |].
  simpl in Hsp. apply andb_prop in Hsp as [Hw Hsp].
  simpl. rewrite Hw.
  destruct (rev x) as [| r rx] eqn:Hrev.
  { exfalso. apply Hx. rewrite <- (rev_involutive x), Hrev. reflexivity. }
  rewrite <- Hrev, rev_involutive.
  rewrite (fieldsFrom_spaces ws y Hsp).
  rewrite <- (app_nil_r y) at 1. rewrite (fieldsFrom_word y Hyw). rewrite app_nil_r.
  simpl. destruct (rev y) as [| r' ry] eqn:Hrevy.
  { exfalso. apply Hy. rewrite <- (rev_involutive y), Hrevy. reflexivity. }
  rewrite <- Hrevy, rev_involutive. reflexivity.
Qed.

Lemma list_of_nonempty (s : string) : s <> "" -> list_ascii_of_string s <> [].
Proof. destruct s; [congruence | discriminate]. Qed.

Variable c : Client.

(** X22. A line made of the word [connect], a consumer and a provider
    makes the client connect the consumer to the provider, whatever white
    space surrounds the line and separates the consumer from the provider,
    and also when nothing separates [connect] from the consumer. The line
    prints the status, asks the client to connect and prints the
    outcome. *)
Theorem connect_command_dials (ws0 ws1 a ws2 b ws3 : string) :
  let line := String.append ws0 (String.append "connect" (String.append ws1
                (String.append a (String.append ws2 (String.append b ws3))))) in
  isASCII line = true ->
  allSpace ws0 = true -> allSpace ws1 = true -> allSpace ws2 = true ->
  allSpace ws3 = true -> ws2 <> "" ->
  noSpace a = true -> a <> "" -> a <> "new" ->
  noSpace b = true -> b <> "" ->
  handleActions c line
  = [status ["CONNECTING"; "from:"; a; "to:"; b];
     CallConnect a b;
     match Connect c a b with
     | Some err => warn err
     | None => success ["Connected."]
     end].
Proof.
  intros line _ H0 H1 H2 H3 Hws2 Ha Hane Hnew Hb Hbne.
  unfold allSpace, noSpace in *.
  set (la := list_ascii_of_string a) in *.
  set (lb := list_ascii_of_string b) in *.
  assert (Hla : la <> []) by (apply list_of_nonempty; exact Hane).
  assert (Hlb : lb <> []) by (apply list_of_nonempty; exact Hbne).
  assert (Hl2 : list_ascii_of_string ws2 <> []) by (apply list_of_nonempty; exact Hws2).
  set (args := String.append a (String.append ws2 b)).
  assert (Hargs : list_ascii_of_string args = la ++ list_ascii_of_string ws2 ++ lb).
  { unfold args. rewrite !list_ascii_of_string_app. reflexivity. }
  assert (Hargs_b : beginsWithWord (list_ascii_of_string args)).
  { rewrite Hargs. apply beginsWithWord_app, word_begins; assumption. }
  assert (Hargs_e : beginsWithWord (rev (list_ascii_of_string args))).
  { rewrite Hargs, !rev_app_distr, <- app_assoc.
    apply beginsWithWord_app, word_rev_begins; assumption. }
  set (core := String.append "connect" (String.append ws1 args)).
  assert (Htrim : TrimSpace line = core).
  { unfold TrimSpace, line.
    replace (list_ascii_of_string
               (String.append ws0 (String.append "connect" (String.append ws1
                  (String.append a (String.append ws2 (String.append b ws3)))))))
      with (list_ascii_of_string ws0 ++ list_ascii_of_string core
              ++ list_ascii_of_string ws3).
    2: { unfold core, args. rewrite !list_ascii_of_string_app, <- !app_assoc.
         reflexivity. }
    rewrite trim_core.
    - apply string_of_list_ascii_of_string.
    - exact H0.
    - exact H3.
    - unfold core. simpl. reflexivity.
    - unfold core. rewrite !list_ascii_of_string_app, !rev_app_distr, <- !app_assoc.
      apply beginsWithWord_app. exact Hargs_e. }
  assert (Hslice : sliceFrom 7 core = String.append ws1 args).
  { unfold sliceFrom, core. simpl. rewrite Nat.sub_0_r. apply substring_all. }
  assert (Htrim' : TrimSpace (String.append ws1 args) = args).
  { unfold TrimSpace. rewrite list_ascii_of_string_app.
    rewrite <- (app_nil_r (list_ascii_of_string args)) at 1.
    rewrite trim_core; [apply string_of_list_ascii_of_string | exact H1 | reflexivity
                       | exact Hargs_b | exact Hargs_e]. }
  assert (Hlen : (String.length args =? 0)%nat = false).
  { unfold args. destruct a; [congruence | reflexivity]. }
  assert (Hfields : Fields args = [a; b]).
  { unfold Fields. rewrite Hargs.
    rewrite (fieldsFrom_two la _ lb Hla Hlb Hl2 Ha Hb H2).
    unfold la, lb. rewrite !string_of_list_ascii_of_string. reflexivity. }
  unfold handleActions. rewrite Htrim.
  replace (HasPrefix core "connect") with true
    by (symmetry; apply prefix_append).
  unfold connect. rewrite Hslice, Htrim', Hlen, Hfields.
  apply String.eqb_neq in Hnew. rewrite Hnew.
  destruct (Connect c a b); reflexivity.
Qed.

Lemma append_each (ids : list string) :
  forall options : list string,
    fold_left (fun identities address => identities ++ [address]) ids options
    = options ++ ids.
Proof.
  induction ids as [| address ids IH]; intros options; simpl.
  - rewrite app_nil_r. reflexivity.
  - rewrite IH, <- app_assoc. reflexivity.
Qed.

(** X23. The options offered for the completion of [connect] always begin
    with [new]; the addresses of the identities of the client follow, in
    the order the client returned them. When the client fails the warning
    is printed and [new] is the only option. *)
Theorem identity_options_begin_with_new (line : string) :
  match GetIdentities c with
  | (ids, None) =>
      getIdentityOptionList c line = ("new" :: ids, [CallGetIdentities])
  | (_, Some err) =>
      getIdentityOptionList c line = (["new"], [CallGetIdentities; warn err])
  end.
Proof.
  unfold getIdentityOptionList.
  destruct (GetIdentities c) as [ids [err |]]; [reflexivity |].
  rewrite append_each. reflexivity.
Qed.

End CommandLineWords.

Lemma dials_only_on_connect_witness :
  Cli.HasPrefix (Cli.TrimSpace "  connect new 0xprovider ") "connect" = true.
Proof.
  apply (dials_only_on_connect Cli.sampleClient "  connect new 0xprovider "
           "0xnew" "0xprovider").
  - vm_compute. reflexivity.
  - vm_compute. do 3 right. left.
Defined.

Lemma connect_command_dials_witness :
  Cli.handleActions Cli.sampleClient "  connect0xme   0xprovider "
  = [Cli.status ["CONNECTING"; "from:"; "0xme"; "to:"; "0xprovider"];
     Cli.CallConnect "0xme" "0xprovider";
     Cli.success ["Connected."]].
Proof.
  apply (connect_command_dials Cli.sampleClient "  " "" "0xme" "   " "0xprovider" " ");
    try (vm_compute; reflexivity); discriminate.
Defined.

